(** * CosmostationClient: the Cosmostation wallet adapter of cosmos-kit

    A shallow embedding of the [CosmostationClient] class: the
    namespace-dispatching methods [connect], [getAccounts], [sign] and
    [verify], and the event bridge [on] / [off] with its [eventMap].

    The wallet extension is outside the program.  It is modelled as an
    oracle that answers each native call from the calls made so far; every
    native call the adapter issues is appended to a log, so that "issues
    no request" and "issues the request once" are statements about the
    log. *)

From Stdlib Require Import String List ZArith Bool Lia.
From stdpp Require Import gmap strings.

Set Default Proof Using "Type".
Set Warnings "-register-all".

(** ** JavaScript values

    [doc: unknown], rejection reasons and the payloads the adapter only
    forwards are untyped JavaScript values. *)

Inductive JsValue : Type :=
| JsUndefined
| JsNull
| JsBoolean (b : bool)
| JsNumber (z : Z)
| JsString (s : string)
| JsError (name message : string)
| JsArray (elements : list JsValue)
| JsObject (fields : list (string * JsValue)).

(** The [typeof] operator. *)
Definition typeof (v : JsValue) : string :=
  match v with
  | JsUndefined => "undefined"
  | JsBoolean _ => "boolean"
  | JsNumber _ => "number"
  | JsString _ => "string"
  | JsNull | JsError _ _ | JsArray _ | JsObject _ => "object"
  end.

(** A promise that has settled. *)
Inductive Settled (A : Type) : Type :=
| Fulfilled (a : A)
| Rejected (reason : JsValue).
Arguments Fulfilled {A} a.
Arguments Rejected {A} reason.

Definition isFulfilled {A} (p : Settled A) : bool :=
  match p with Fulfilled _ => true | Rejected _ => false end.

(** ** Data model *)

Definition Namespace := string.

(** The descriptor an [AuthRange] holds per namespace; the adapter reads
    only [chainIds], which may be absent. *)
Record AuthEntry := { chainIds : option (list string) }.

(** [AuthRange] as [Object.entries] lists it: the namespaces in property
    order, each once. *)
Definition AuthRange := list (Namespace * AuthEntry).

Module EncodedString.
Record t := mk { value : string; encoding : option string }.
End EncodedString.

Module WalletAccount.
Record t := mk {
  namespace : Namespace;
  chainId : option string;
  username : option string;
  address : EncodedString.t;
  publicKey : option EncodedString.t;
  algo : option string
}.
End WalletAccount.

(** The answer to [cos_requestAccount]. *)
Module Key.
Record t := mk {
  name : string;
  address : string;
  publicKey : list Byte.byte;
  isLedger : bool;
  algo : string
}.
End Key.

(** The answer to [aptos_account]. *)
Module AptosAccount.
Record t := mk { address : string; publicKey : string }.
End AptosAccount.

(** The [pub_key] of the wallet's sign responses. *)
Module PubKey.
Record t := mk { type : string; value : string }.
End PubKey.

Module SignMessageResponse.
Record t := mk { pub_key : PubKey.t; signature : string }.
End SignMessageResponse.

(** [SignDirectResponse | SignAminoResponse]: the adapter reads the same
    three fields of both. *)
Module SignDocResponse.
Record t := mk { pub_key : PubKey.t; signature : string; signed_doc : JsValue }.
End SignDocResponse.

Module EthResult.
Record t := mk { result : string }.
End EthResult.

Module SignOptions.
Record t := mk { memo : option bool; fee : option bool; gasRate : option JsValue }.
End SignOptions.

Module Signature.
Record t := mk {
  publicKey : option PubKey.t;
  signature : EncodedString.t;
  signedDoc : JsValue
}.
End Signature.

(** The parameters of [cos_signDirect] and [cos_signAmino]. *)
Module SignParams.
Record t := mk {
  chainName : string;
  doc : JsValue;
  isEditMemo : bool;
  isEditFee : bool;
  gasRate : option JsValue
}.
End SignParams.

(** Listeners and native event handles are objects, compared by
    reference: the model keeps their identity, a number that names the
    object. *)
Definition Listener := nat.
Definition Event := nat.

(** ** The wallet's native interface *)

(** The four request entry points of the extension. *)
Inductive Provider := Cosmos | Ethereum | Aptos | Sui.

(** A request payload [{ method, params }], indexed by the type the
    adapter casts the answer to. *)
Inductive Request : Type -> Type :=
| aptos_connect : Request JsValue
| aptos_account : Request AptosAccount.t
| sui_connect : Request JsValue
| sui_getAccounts : Request (list string)
| sui_getPublicKey : Request string
| eth_requestAccounts : Request (list string)
| eth_sign (signer doc : string) : Request EthResult.t
| eth_signTransaction (signer : string) (doc : JsValue) : Request EthResult.t
| eth_signTypedData_v4 (signer : string) (doc : JsValue) : Request string
| cos_requestAccount (chainName : string) : Request Key.t
| cos_signMessage (chainName signer message : string)
    : Request SignMessageResponse.t
| cos_signDirect (params : SignParams.t) : Request SignDocResponse.t
| cos_signAmino (params : SignParams.t) : Request SignDocResponse.t
| cos_verifyMessage (chainName signer message publicKey signature : string)
    : Request bool.

(** The [method] string of a payload. *)
Definition method {R} (r : Request R) : string :=
  match r with
  | aptos_connect => "aptos_connect"
  | aptos_account => "aptos_account"
  | sui_connect => "sui_connect"
  | sui_getAccounts => "sui_getAccounts"
  | sui_getPublicKey => "sui_getPublicKey"
  | eth_requestAccounts => "eth_requestAccounts"
  | eth_sign _ _ => "eth_sign"
  | eth_signTransaction _ _ => "eth_signTransaction"
  | eth_signTypedData_v4 _ _ => "eth_signTypedData_v4"
  | cos_requestAccount _ => "cos_requestAccount"
  | cos_signMessage _ _ _ => "cos_signMessage"
  | cos_signDirect _ => "cos_signDirect"
  | cos_signAmino _ => "cos_signAmino"
  | cos_verifyMessage _ _ _ _ _ => "cos_verifyMessage"
  end.

(** One native call: a request to a provider, or the cosmos provider's
    event subscription and unsubscription. *)
Inductive Call : Type :=
| call_request {R} (provider : Provider) (payload : Request R)
| call_on (type : string) (listener : Listener)
| call_off (event : Event).

(** The log lists the native calls in the order the model issues them.
    The calls to one provider are in the order the adapter makes them;
    how the calls of concurrent branches to different providers
    interleave is not modelled. *)
Definition Log := list Call.

(** The extension: what [request] settles to and which handle [on]
    returns, given the calls made before. *)
Record Cosmostation := {
  request : forall {R}, Log -> Provider -> Request R -> Settled R;
  cosmos_on : Log -> string -> Listener -> Event
}.

(** Functions the adapter imports from other packages. *)
Class Imports := {
  isCosmosDirectDoc : JsValue -> bool;
  isEthTransactionDoc : JsValue -> bool;
  getStringFromUint8Array : list Byte.byte -> string -> string
}.

(** ** Async functions

    An async function runs against the log of native calls and settles. *)

Definition Async (A : Type) : Type := Log -> Settled A * Log.

Definition resolve {A} (a : A) : Async A := fun log => (Fulfilled a, log).

(** [Promise.reject(reason)] returned from an async function, or a
    [throw] inside it. *)
Definition Promise_reject {A} (reason : JsValue) : Async A :=
  fun log => (Rejected reason, log).

(** [await]: the rest of the function runs on fulfilment; a rejection
    becomes the function's own. *)
Definition await {A B} (p : Async A) (k : A -> Async B) : Async B :=
  fun log =>
    match p log with
    | (Fulfilled a, log') => k a log'
    | (Rejected reason, log') => (Rejected reason, log')
    end.

Notation "'let*' x ':=' p 'in' k" := (await p (fun x => k))
  (at level 10, x pattern, p at level 100, k at level 200).

(** [array.map(async ...)]: every callback is started, whatever the
    others settle to. *)
Fixpoint map_async {A B} (f : A -> Async B) (array : list A)
  : Log -> list (Settled B) * Log :=
  match array with
  | [] => fun log => ([], log)
  | x :: rest => fun log =>
      let (p, log1) := f x log in
      let (ps, log2) := map_async f rest log1 in
      (p :: ps, log2)
  end.

(** [Promise.all]: fulfilled with all the values, in order, when every
    promise is fulfilled; otherwise rejected with the reason of the
    promise that rejects first.  The model has no clock: of several
    rejected promises it takes the first of the array, which is the one
    JavaScript reports when they reject after the same number of turns
    (as two guard rejections do).  Statements that name the reason of a
    whole call are made only where that choice is not in question. *)
Fixpoint Promise_all {A} (promises : list (Settled A)) : Settled (list A) :=
  match promises with
  | [] => Fulfilled []
  | Fulfilled a :: rest =>
      match Promise_all rest with
      | Fulfilled values => Fulfilled (a :: values)
      | Rejected reason => Rejected reason
      end
  | Rejected reason :: _ => Rejected reason
  end.

Definition Promise_all_map {A B} (f : A -> Async B) (array : list A)
  : Async (list B) :=
  fun log => let (ps, log') := map_async f array log in (Promise_all ps, log').

(** [!chainId] for an optional string: absent and empty are both falsy. *)
Definition provided (chainId : option string) : option string :=
  match chainId with
  | Some c => if String.eqb c "" then None else Some c
  | None => None
  end.

(** The cases of the [switch (namespace)] statements. *)
Inductive NamespaceCase := case_cosmos | case_ethereum | case_aptos | case_sui | case_default.

Definition switch (namespace : Namespace) : NamespaceCase :=
  if String.eqb namespace "cosmos" then case_cosmos
  else if String.eqb namespace "ethereum" then case_ethereum
  else if String.eqb namespace "aptos" then case_aptos
  else if String.eqb namespace "sui" then case_sui
  else case_default.

(** The rejection reasons of the adapter. *)
Definition Unmatched_namespace : JsValue := JsString "Unmatched namespace.".
Definition No_chainIds_provided : JsValue := JsString "No chainIds provided.".
Definition ChainId_not_provided : JsValue := JsString "ChainId not provided.".
Definition Only_support_message_string_verification : JsValue :=
  JsString "Only support message string verification.".

(** Reading a property of [undefined] throws. *)
Definition TypeError_undefined : JsValue :=
  JsError "TypeError" "Cannot read properties of undefined".

(** ** The adapter *)

(** What [on] and [off] act on: the adapter's [eventMap] and the log of
    native calls. *)
Record State := {
  eventMap : gmap string (gmap Listener Event);
  log : Log
}.

Section CosmostationClient.
Context `{Imports} (client : Cosmostation).

(** [this.client.<provider>.request(payload)]: logged, then settled by
    the wallet. *)
Definition client_request {R} (provider : Provider) (payload : Request R)
  : Async R :=
  fun log => (request client log provider payload,
              log ++ [call_request provider payload]).

(** The async callback [connect] maps over the entries. *)
Definition connect_namespace (entry : Namespace * AuthEntry) : Async unit :=
  let '(namespace, _) := entry in
    match switch namespace with
    | case_aptos =>
        let* _ := client_request Aptos aptos_connect in
        resolve tt
    | case_sui =>
        let* _ := client_request Sui sui_connect in
        resolve tt
    | _ => Promise_reject Unmatched_namespace
    end.

Definition connect (authRange : AuthRange) : Async unit :=
  let* _ := Promise_all_map connect_namespace authRange in
  resolve tt.

(** The async callback [getAccounts] maps over the chain ids of the
    cosmos entry. *)
Definition getAccounts_chainId (namespace : Namespace) (chainId : string)
  : Async WalletAccount.t :=
  let* key := client_request Cosmos (cos_requestAccount chainId) in
  resolve {|
    WalletAccount.chainId := Some chainId;
    WalletAccount.namespace := namespace;
    WalletAccount.username := Some (Key.name key);
    WalletAccount.address := {|
      EncodedString.value := Key.address key;
      EncodedString.encoding := Some "bech32" |};
    WalletAccount.publicKey := Some {|
      EncodedString.value := getStringFromUint8Array (Key.publicKey key) "hex";
      EncodedString.encoding := Some "hex" |};
    WalletAccount.algo := Some (Key.algo key) |}.

(** The async callback [getAccounts] maps over the entries. *)
Definition getAccounts_namespace (entry : Namespace * AuthEntry)
  : Async (list WalletAccount.t) :=
  let '(namespace, entry) := entry in
    match switch namespace with
    | case_cosmos =>
        match chainIds entry with
        | None => Promise_reject No_chainIds_provided
        | Some chainIds =>
            Promise_all_map (getAccounts_chainId namespace) chainIds
        end
    | case_ethereum =>
        let* ethAddrs := client_request Ethereum eth_requestAccounts in
        resolve (map (fun address => {|
          WalletAccount.chainId := None;
          WalletAccount.namespace := namespace;
          WalletAccount.username := None;
          WalletAccount.address := {|
            EncodedString.value := address;
            EncodedString.encoding := Some "hex" |};
          WalletAccount.publicKey := None;
          WalletAccount.algo := None |}) ethAddrs)
    | case_aptos =>
        let* account := client_request Aptos aptos_account in
        resolve [ {|
          WalletAccount.chainId := None;
          WalletAccount.namespace := namespace;
          WalletAccount.username := None;
          WalletAccount.address := {|
            EncodedString.value := AptosAccount.address account;
            EncodedString.encoding := Some "hex" |};
          WalletAccount.publicKey := Some {|
            EncodedString.value := AptosAccount.publicKey account;
            EncodedString.encoding := Some "hex" |};
          WalletAccount.algo := None |} ]
    | case_sui =>
        let* suiAddrs := client_request Sui sui_getAccounts in
        let* suiPublicKey := client_request Sui sui_getPublicKey in
        resolve (map (fun address => {|
          WalletAccount.chainId := None;
          WalletAccount.namespace := namespace;
          WalletAccount.username := None;
          WalletAccount.address := {|
            EncodedString.value := address;
            EncodedString.encoding := Some "hex" |};
          WalletAccount.publicKey := Some {|
            EncodedString.value := suiPublicKey;
            EncodedString.encoding := Some "hex" |};
          WalletAccount.algo := None |}) suiAddrs)
    | case_default => Promise_reject Unmatched_namespace
    end.

Definition getAccounts (authRange : AuthRange) : Async (list WalletAccount.t) :=
  let* accountsList := Promise_all_map getAccounts_namespace authRange in
  resolve (concat accountsList).

Definition sign (namespace : Namespace) (doc : JsValue)
    (signerAddress : string) (chainId : option string)
    (options : option SignOptions.t) : Async Signature.t :=
  match switch namespace with
  | case_cosmos =>
      match provided chainId with
      | None => Promise_reject ChainId_not_provided
      | Some chainId =>
          match doc with
          | JsString message =>
              let* response := client_request Cosmos
                (cos_signMessage chainId signerAddress message) in
              resolve {|
                Signature.publicKey :=
                  Some (SignMessageResponse.pub_key response);
                Signature.signature := {|
                  EncodedString.value :=
                    SignMessageResponse.signature response;
                  EncodedString.encoding := None |};
                Signature.signedDoc := doc |}
          | _ =>
              let params := {|
                SignParams.chainName := chainId;
                SignParams.doc := doc;
                SignParams.isEditMemo :=
                  match options with
                  | Some o => default false (SignOptions.memo o)
                  | None => false
                  end;
                SignParams.isEditFee :=
                  match options with
                  | Some o => default false (SignOptions.fee o)
                  | None => false
                  end;
                SignParams.gasRate :=
                  match options with
                  | Some o => SignOptions.gasRate o
                  | None => None
                  end |} in
              let* response := client_request Cosmos
                (if isCosmosDirectDoc doc then cos_signDirect params
                 else cos_signAmino params) in
              resolve {|
                Signature.publicKey := Some (SignDocResponse.pub_key response);
                Signature.signature := {|
                  EncodedString.value := SignDocResponse.signature response;
                  EncodedString.encoding := None |};
                Signature.signedDoc := SignDocResponse.signed_doc response |}
          end
      end
  | case_ethereum =>
      match doc with
      | JsString message =>
          let* response := client_request Ethereum
            (eth_sign signerAddress message) in
          resolve {|
            Signature.publicKey := None;
            Signature.signature := {|
              EncodedString.value := EthResult.result response;
              EncodedString.encoding := None |};
            Signature.signedDoc := doc |}
      | _ =>
          if isEthTransactionDoc doc then
            let* response := client_request Ethereum
              (eth_signTransaction signerAddress doc) in
            resolve {|
              Signature.publicKey := None;
              Signature.signature := {|
                EncodedString.value := EthResult.result response;
                EncodedString.encoding := None |};
              Signature.signedDoc := doc |}
          else
            let* signature := client_request Ethereum
              (eth_signTypedData_v4 signerAddress doc) in
            resolve {|
              Signature.publicKey := None;
              Signature.signature := {|
                EncodedString.value := signature;
                EncodedString.encoding := None |};
              Signature.signedDoc := doc |}
      end
  | _ => Promise_reject Unmatched_namespace
  end.

Definition verify (namespace : Namespace) (doc : JsValue)
    (signature : Signature.t) (signerAddress : string)
    (chainId : option string) : Async bool :=
  match switch namespace with
  | case_cosmos =>
      match provided chainId with
      | None => Promise_reject ChainId_not_provided
      | Some chainId =>
          match doc with
          | JsString message =>
              match Signature.publicKey signature with
              | None => Promise_reject TypeError_undefined
              | Some publicKey =>
                  let* result := client_request Cosmos
                    (cos_verifyMessage chainId signerAddress message
                       (PubKey.value publicKey)
                       (EncodedString.value (Signature.signature signature))) in
                  resolve result
              end
          | _ => Promise_reject Only_support_message_string_verification
          end
      end
  | _ => Promise_reject Unmatched_namespace
  end.

(** [this.cosmos.on(type, listener)]: logged; the wallet returns the
    handle. *)
Definition client_on (type : string) (listener : Listener) (log : Log)
  : Event * Log :=
  (cosmos_on client log type listener, log ++ [call_on type listener]).

Definition on (type : string) (listener : Listener) (this : State) : State :=
  let (event, log') := client_on type listener (log this) in
  let typeEventMap := default ∅ (eventMap this !! type) in
  let typeEventMap := <[listener := event]> typeEventMap in
  {| eventMap := <[type := typeEventMap]> (eventMap this); log := log' |}.

(** [if (event)] tests that the lookup found a handle: a handle is an
    object, and so truthy.  The entry stays in [eventMap]. *)
Definition off (type : string) (listener : Listener) (this : State) : State :=
  match eventMap this !! type ≫= (fun typeEventMap => typeEventMap !! listener) with
  | Some event =>
      {| eventMap := eventMap this; log := log this ++ [call_off event] |}
  | None => this
  end.
End CosmostationClient.

(** ** Vocabulary of the specification *)

(** The error kinds of the specification, and which of them a rejection
    reason of the adapter stands for.  Any other reason (a failure of the
    wallet, a [TypeError]) is passed through and has no kind. *)
Inductive ErrorKind :=
| UnsupportedNamespace
| MissingChainId
| MissingChainIds
| UnsupportedOperation.

Definition errorKind (reason : JsValue) : option ErrorKind :=
  match reason with
  | JsString message =>
      if String.eqb message "Unmatched namespace." then Some UnsupportedNamespace
      else if String.eqb message "ChainId not provided." then Some MissingChainId
      else if String.eqb message "No chainIds provided." then Some MissingChainIds
      else if String.eqb message "Only support message string verification."
      then Some UnsupportedOperation
      else None
  | _ => None
  end.

Definition Provider_eqb (p q : Provider) : bool :=
  match p, q with
  | Cosmos, Cosmos | Ethereum, Ethereum | Aptos, Aptos | Sui, Sui => true
  | _, _ => false
  end.

(** The requests of a log that went to one provider. *)
Definition isRequestTo (provider : Provider) (c : Call) : bool :=
  match c with
  | call_request p _ => Provider_eqb p provider
  | _ => false
  end.

Definition requestsTo (provider : Provider) (log : Log) : Log :=
  List.filter (isRequestTo provider) log.

(** The native request that grants permission for a namespace. *)
Definition grantRequest (entry : Namespace * AuthEntry) : Log :=
  if String.eqb (fst entry) "aptos" then [call_request Aptos aptos_connect]
  else if String.eqb (fst entry) "sui" then [call_request Sui sui_connect]
  else [].

(** The wallet grants the request that [connect] makes for an entry when
    the calls logged so far are [log]: the entry is bound and the wallet
    fulfils its grant request. *)
Definition granted (client : Cosmostation) (log : Log)
    (entry : Namespace * AuthEntry) : bool :=
  if String.eqb (fst entry) "aptos"
  then isFulfilled (request client log Aptos aptos_connect)
  else if String.eqb (fst entry) "sui"
  then isFulfilled (request client log Sui sui_connect)
  else false.

(** The account requests that [getAccounts] owes to an entry: one per
    chain id of the cosmos entry. *)
Definition accountRequests (entry : Namespace * AuthEntry) : Log :=
  if String.eqb (fst entry) "cosmos" then
    match chainIds (snd entry) with
    | Some ids =>
        map (fun chainId => call_request Cosmos (cos_requestAccount chainId)) ids
    | None => []
    end
  else [].


(** The accounts the branch of an entry was fulfilled with. *)
Definition branchOf `{Imports} (client : Cosmostation)
    (entry : Namespace * AuthEntry) (accounts : list WalletAccount.t) : Prop :=
  exists log1, fst (getAccounts_namespace client entry log1) = Fulfilled accounts.

(** The handle the registry holds for a pair. *)
Definition registered (this : State) (type : string) (listener : Listener)
  : option Event :=
  eventMap this !! type ≫= (fun typeEventMap => typeEventMap !! listener).

(** A use of the event bridge, and a sequence of them. *)
Inductive BridgeCall :=
| bridge_on (type : string) (listener : Listener)
| bridge_off (type : string) (listener : Listener).

#[global] Instance BridgeCall_eq_dec : EqDecision BridgeCall.
Proof. unfold Listener. solve_decision. Defined.

Definition bridge_step (client : Cosmostation) (this : State) (c : BridgeCall)
  : State :=
  match c with
  | bridge_on type listener => on client type listener this
  | bridge_off type listener => off type listener this
  end.

Definition bridge_run (client : Cosmostation) (cs : list BridgeCall)
    (this : State) : State :=
  fold_left (bridge_step client) cs this.

(** The [params] that [sign] sends with a structured cosmos document, and
    the [Signature] it builds from the answer. *)
Definition signParams (chainId : string) (doc : JsValue)
    (options : option SignOptions.t) : SignParams.t := {|
  SignParams.chainName := chainId;
  SignParams.doc := doc;
  SignParams.isEditMemo :=
    match options with
    | Some o => default false (SignOptions.memo o)
    | None => false
    end;
  SignParams.isEditFee :=
    match options with
    | Some o => default false (SignOptions.fee o)
    | None => false
    end;
  SignParams.gasRate :=
    match options with
    | Some o => SignOptions.gasRate o
    | None => None
    end |}.

Definition signatureOf (response : SignDocResponse.t) : Signature.t := {|
  Signature.publicKey := Some (SignDocResponse.pub_key response);
  Signature.signature := {|
    EncodedString.value := SignDocResponse.signature response;
    EncodedString.encoding := None |};
  Signature.signedDoc := SignDocResponse.signed_doc response |}.

(** The accounts of one namespace in a result of [getAccounts]. *)
Definition accountsOf (namespace : Namespace) (accounts : list WalletAccount.t)
  : list WalletAccount.t :=
  List.filter (fun a => String.eqb (WalletAccount.namespace a) namespace) accounts.

(** ** A wallet and imports to run the adapter on *)

Definition hasProperty (name : string) (v : JsValue) : bool :=
  match v with
  | JsObject fields => existsb (fun f => String.eqb (fst f) name) fields
  | _ => false
  end.

Definition hexDigit (n : N) : Ascii.ascii :=
  match String.get (N.to_nat n) "0123456789abcdef" with
  | Some c => c
  | None => Ascii.zero
  end.

Definition toHex (bytes : list Byte.byte) : string :=
  fold_right (fun b s =>
    String (hexDigit (N.div (Byte.to_N b) 16))
      (String (hexDigit (N.modulo (Byte.to_N b) 16)) s)) "" bytes.

Definition stubImports : Imports := {|
  isCosmosDirectDoc := hasProperty "bodyBytes";
  isEthTransactionDoc := hasProperty "gasLimit";
  getStringFromUint8Array := fun bytes _ => toHex bytes
|}.

Definition stubPubKey : PubKey.t :=
  {| PubKey.type := "tendermint/PubKeySecp256k1"; PubKey.value := "A08E" |}.

(** A wallet that grants everything, edits the memo of the documents it
    signs and hands out a new handle at each subscription. *)
Definition stubWallet : Cosmostation := {|
  request := fun R log provider payload =>
    match payload in Request R return Settled R with
    | aptos_connect | sui_connect => Fulfilled JsNull
    | aptos_account =>
        Fulfilled {| AptosAccount.address := "0x1"; AptosAccount.publicKey := "0xab" |}
    | sui_getAccounts | eth_requestAccounts => Fulfilled ["0xa1"; "0xa2"]
    | sui_getPublicKey => Fulfilled "0xcd"
    | eth_sign _ _ | eth_signTransaction _ _ =>
        Fulfilled {| EthResult.result := "0xsig" |}
    | eth_signTypedData_v4 _ _ => Fulfilled "0xsig"
    | cos_requestAccount chainName =>
        Fulfilled {|
          Key.name := "alice";
          Key.address := "addr@" +:+ chainName;
          Key.publicKey := [Byte.x02; Byte.xab];
          Key.isLedger := false;
          Key.algo := "secp256k1" |}
    | cos_signMessage _ _ message =>
        Fulfilled {|
          SignMessageResponse.pub_key := stubPubKey;
          SignMessageResponse.signature := "signed:" +:+ message |}
    | cos_signDirect _ | cos_signAmino _ =>
        Fulfilled {|
          SignDocResponse.pub_key := stubPubKey;
          SignDocResponse.signature := "c2ln";
          SignDocResponse.signed_doc := JsObject [("memo", JsString "edited")] |}
    | cos_verifyMessage _ _ _ _ _ => Fulfilled true
    end;
  cosmos_on := fun log _ _ => length log
|}.

(** A wallet whose user refuses every request. *)
Definition refusingWallet : Cosmostation := {|
  request := fun R _ _ _ => Rejected (JsString "User rejected request");
  cosmos_on := fun log _ _ => length log
|}.

Definition initial : State := {| eventMap := ∅; log := [] |}.

Definition stubSignature : Signature.t := {|
  Signature.publicKey := Some stubPubKey;
  Signature.signature :=
    {| EncodedString.value := "c2ln"; EncodedString.encoding := None |};
  Signature.signedDoc := JsString "hello" |}.

(** ** The other methods of the adapter

    [addChain], [switchChain], [signAndBroadcast], [disconnect],
    [getOfflineSigner] and [sendTx] use requests and a provider (keplr)
    that the methods above do not.  Their native calls are kept in a log
    of their own, answered by an oracle of their own. *)

(** The payloads of these methods; the adapter reads the answer of
    [sui_signAndExecuteTransaction] only, as an untyped value. *)
Inductive OtherRequest : Type :=
| cos_addChain (params : JsValue)
| wallet_addEthereumChain (params : JsValue)
| wallet_switchEthereumChain (chainId : string)
| sui_signAndExecuteTransaction (params : JsValue)
| cos_disconnect.

(** Offline signers are objects of the wallet, known by their identity. *)
Definition OfflineSigner := nat.

(** The calls to [this.client.providers.keplr]. *)
Module Keplr.
Inductive Call : Type :=
| getOfflineSignerOnlyAmino (chainId : string)
| getOfflineSigner (chainId : string)
| sendTx (chainId : string) (tx : list Byte.byte) (mode : string).
End Keplr.

Inductive OtherCall : Type :=
| call_other (provider : Provider) (payload : OtherRequest)
| call_keplr (c : Keplr.Call).

Definition OtherLog := list OtherCall.

Record Extension := {
  other_request : OtherLog -> Provider -> OtherRequest -> Settled JsValue;
  keplr_signer : OtherLog -> Keplr.Call -> OfflineSigner;
  keplr_sendTx : OtherLog -> Keplr.Call -> Settled (list Byte.byte)
}.

(** Async functions over this log. *)
Definition Async' (A : Type) : Type := OtherLog -> Settled A * OtherLog.

Definition resolve' {A} (a : A) : Async' A := fun log => (Fulfilled a, log).

Definition Promise_reject' {A} (reason : JsValue) : Async' A :=
  fun log => (Rejected reason, log).

Definition await' {A B} (p : Async' A) (k : A -> Async' B) : Async' B :=
  fun log =>
    match p log with
    | (Fulfilled a, log') => k a log'
    | (Rejected reason, log') => (Rejected reason, log')
    end.

(** An expression that evaluates or throws. *)
Definition settled' {A} (p : Settled A) : Async' A := fun log => (p, log).

Notation "'let+' x ':=' p 'in' k" := (await' p (fun x => k))
  (at level 10, x pattern, p at level 100, k at level 200).

Fixpoint map_async' {A B} (f : A -> Async' B) (array : list A)
  : OtherLog -> list (Settled B) * OtherLog :=
  match array with
  | [] => fun log => ([], log)
  | x :: rest => fun log =>
      let (p, log1) := f x log in
      let (ps, log2) := map_async' f rest log1 in
      (p :: ps, log2)
  end.

Definition Promise_all_map' {A B} (f : A -> Async' B) (array : list A)
  : Async' (list B) :=
  fun log => let (ps, log') := map_async' f array log in (Promise_all ps, log').

(** What a method that is not [async] hands back: [undefined], or a
    promise. *)
Inductive Returned (A : Type) : Type :=
| returned_undefined
| returned_promise (p : Settled A).
Arguments returned_undefined {A}.
Arguments returned_promise {A} p.

(** [v[name]] for a [name] that is no built-in property: an object gives
    the property it holds under that name or [undefined], [undefined] and
    [null] throw, any other value gives [undefined]. *)
Fixpoint lookupProperty (name : string) (fields : list (string * JsValue))
  : JsValue :=
  match fields with
  | [] => JsUndefined
  | (k, v) :: rest => if String.eqb k name then v else lookupProperty name rest
  end.

Definition getProperty (v : JsValue) (name : string) : Settled JsValue :=
  match v with
  | JsUndefined | JsNull => Rejected TypeError_undefined
  | JsObject fields => Fulfilled (lookupProperty name fields)
  | _ => Fulfilled JsUndefined
  end.

(** The receipt of [signAndBroadcast]: [{ hash: { value } }]. *)
Module Block.
Record t := mk { hash_value : JsValue }.
End Block.

Section OtherMethods.
Context (client : Extension).

(** [this.client.<provider>.request(payload)], awaited or not: the call
    is logged when it is made. *)
Definition client_request' (provider : Provider) (payload : OtherRequest)
  : Async' JsValue :=
  fun log => (other_request client log provider payload,
              log ++ [call_other provider payload]).

(** A request that is made and not awaited: its outcome is dropped. *)
Definition client_request_unawaited (provider : Provider)
    (payload : OtherRequest) : Async' unit :=
  fun log => (Fulfilled tt, snd (client_request' provider payload log)).

Definition addChain (namespace : Namespace) (chainInfo : JsValue) : Async' unit :=
  match switch namespace with
  | case_cosmos =>
      let+ _ := client_request_unawaited Cosmos (cos_addChain chainInfo) in
      resolve' tt
  | case_ethereum =>
      let+ _ := client_request_unawaited Ethereum
                  (wallet_addEthereumChain chainInfo) in
      resolve' tt
  | _ => Promise_reject' Unmatched_namespace
  end.

(** [switchChain] is not [async]: after the ethereum request it returns
    [undefined]. *)
Definition switchChain (namespace : Namespace) (chainId : string)
    (log : OtherLog) : Returned unit * OtherLog :=
  match switch namespace with
  | case_ethereum =>
      (returned_undefined,
       snd (client_request' Ethereum (wallet_switchEthereumChain chainId) log))
  | _ => (returned_promise (Rejected Unmatched_namespace), log)
  end.

Definition signAndBroadcast (namespace : Namespace) (doc : JsValue)
    (signerAddress chainId : option string) (options : JsValue)
  : Async' Block.t :=
  match switch namespace with
  | case_sui =>
      let+ resp := client_request' Sui (sui_signAndExecuteTransaction doc) in
      let+ effects := settled' (getProperty resp "effects") in
      let+ digest := settled' (getProperty effects "transactionDigest") in
      resolve' {| Block.hash_value := digest |}
  | _ => Promise_reject' Unmatched_namespace
  end.

(** The async callback [disconnect] maps over the entries. *)
Definition disconnect_namespace (entry : Namespace * AuthEntry) : Async' unit :=
  let '(namespace, _) := entry in
    match switch namespace with
    | case_cosmos =>
        let+ _ := client_request' Cosmos cos_disconnect in
        resolve' tt
    | _ => Promise_reject' Unmatched_namespace
    end.

Definition disconnect (authRange : AuthRange) : Async' unit :=
  let+ _ := Promise_all_map' disconnect_namespace authRange in
  resolve' tt.

Definition getOfflineSignerAmino (chainId : string) (log : OtherLog)
  : OfflineSigner * OtherLog :=
  (keplr_signer client log (Keplr.getOfflineSignerOnlyAmino chainId),
   log ++ [call_keplr (Keplr.getOfflineSignerOnlyAmino chainId)]).

Definition getOfflineSignerDirect (chainId : string) (log : OtherLog)
  : OfflineSigner * OtherLog :=
  (keplr_signer client log (Keplr.getOfflineSigner chainId),
   log ++ [call_keplr (Keplr.getOfflineSigner chainId)]).

Definition getOfflineSigner (chainId : string)
    (preferredSignType : option string) (log : OtherLog)
  : OfflineSigner * OtherLog :=
  match preferredSignType with
  | Some signType =>
      if String.eqb signType "amino" then getOfflineSignerAmino chainId log
      else if String.eqb signType "direct" then getOfflineSignerDirect chainId log
      else getOfflineSignerAmino chainId log
  | None => getOfflineSignerAmino chainId log
  end.

Definition sendTx (chainId : string) (tx : list Byte.byte) (mode : string)
  : Async' (list Byte.byte) :=
  let+ result := (fun log =>
    (keplr_sendTx client log (Keplr.sendTx chainId tx mode),
     log ++ [call_keplr (Keplr.sendTx chainId tx mode)])) in
  resolve' result.
End OtherMethods.

(** ** utils/verify.ts *)

(** The chain registry the function imports: its entries and the
    [chain_name] the function reads of each. *)
Class Registry := {
  Chain : Type;
  chain_name : Chain -> string;
  chains : list Chain
}.

(** [Array.prototype.findIndex]: the index of the first element that
    satisfies the predicate, or -1. *)
Fixpoint findIndex_from {A} (predicate : A -> bool) (array : list A) (i : Z) : Z :=
  match array with
  | [] => (-1)%Z
  | x :: rest =>
      if predicate x then i else findIndex_from predicate rest (i + 1)%Z
  end.

Definition findIndex {A} (predicate : A -> bool) (array : list A) : Z :=
  findIndex_from predicate array 0%Z.

Definition isCosmosChain `{Registry} (chainName : string) : bool :=
  if Z.eqb (findIndex (fun chain => String.eqb (chain_name chain) chainName)
                      chains) (-1)%Z
  then false else true.

(** ** Vocabulary for the other methods *)

(** The [method] of a request in the log. *)
Definition callMethod (c : Call) : option string :=
  match c with
  | call_request _ payload => Some (method payload)
  | _ => None
  end.

(** The requests of a log of the other methods. *)
Definition otherRequests (log : OtherLog) : list (Provider * OtherRequest) :=
  flat_map (fun c =>
    match c with
    | call_other provider payload => [(provider, payload)]
    | call_keplr _ => []
    end) log.

(** The native subscriptions and unsubscriptions of a log. *)
Definition subscriptions (log : Log) : list (string * Listener) :=
  flat_map (fun c =>
    match c with call_on type listener => [(type, listener)] | _ => [] end) log.

Definition unsubscriptions (log : Log) : list Event :=
  flat_map (fun c => match c with call_off event => [event] | _ => [] end) log.

(** The registrations among the uses of the bridge. *)
Definition registrations (cs : list BridgeCall) : list (string * Listener) :=
  flat_map (fun c =>
    match c with bridge_on type listener => [(type, listener)] | _ => [] end) cs.

(** An extension that answers every request with a receipt, and one that
    answers [null]. *)
Definition stubExtension : Extension := {|
  other_request := fun _ _ payload =>
    match payload with
    | sui_signAndExecuteTransaction _ =>
        Fulfilled (JsObject
          [("effects", JsObject [("transactionDigest", JsString "9fGh")])])
    | _ => Fulfilled JsNull
    end;
  keplr_signer := fun log _ => length log;
  keplr_sendTx := fun _ _ => Fulfilled [Byte.x0a]
|}.

Definition nullExtension : Extension := {|
  other_request := fun _ _ _ => Fulfilled JsNull;
  keplr_signer := fun log _ => length log;
  keplr_sendTx := fun _ _ => Rejected (JsString "User rejected request")
|}.

Module StubChain.
Record t := mk { chain_name : string; chain_id : string }.
End StubChain.

Definition stubRegistry : Registry := {|
  Chain := StubChain.t;
  chain_name := StubChain.chain_name;
  chains := [ {| StubChain.chain_name := "cosmoshub";
                 StubChain.chain_id := "cosmoshub-4" |};
              {| StubChain.chain_name := "osmosis";
                 StubChain.chain_id := "osmosis-1" |} ]
|}.

(** * Properties *)

(** ** Dispatch and guards *)

Lemma switch_cosmos_iff namespace :
  switch namespace = case_cosmos <-> namespace = "cosmos".
Proof.
  unfold switch. split.
  - destruct (String.eqb_spec namespace "cosmos") as [-> | _]; [reflexivity |].
    repeat (case String.eqb; try discriminate).
  - intros ->. reflexivity.
Qed.

Lemma switch_aptos_iff namespace :
  switch namespace = case_aptos <-> namespace = "aptos".
Proof.
  unfold switch. split.
  - destruct (String.eqb_spec namespace "aptos") as [-> | _]; [reflexivity |].
    repeat (case String.eqb; try discriminate).
  - intros ->. reflexivity.
Qed.

Lemma switch_sui_iff namespace :
  switch namespace = case_sui <-> namespace = "sui".
Proof.
  unfold switch. split.
  - destruct (String.eqb_spec namespace "sui") as [-> | _]; [reflexivity |].
    repeat (case String.eqb; try discriminate).
  - intros ->. reflexivity.
Qed.

Lemma provided_nonempty chainId : chainId <> "" -> provided (Some chainId) = Some chainId.
Proof.
  intros Hne. unfold provided.
  destruct (String.eqb_spec chainId ""); [contradiction | reflexivity].
Qed.

Lemma provided_Some chainId c : provided chainId = Some c -> chainId = Some c.
Proof.
  destruct chainId as [c' |]; simpl; [| discriminate].
  destruct (String.eqb c' ""); [discriminate | congruence].
Qed.

Lemma typeof_string doc : typeof doc = "string" <-> exists s, doc = JsString s.
Proof.
  split.
  - destruct doc; simpl; try discriminate. eauto.
  - intros [s ->]. reflexivity.
Qed.

Section Signing.
Context `{Imports} (client : Cosmostation).

(** C7.  [sign("cosmos", doc, signerAddress, undefined, options)]
    rejects with 'ChainId not provided.' (MissingChainId) whatever the
    document, the signer and the options are, and the log of native
    calls is left as it was: no request is issued. *)
Theorem sign_cosmos_chainId_omitted doc signerAddress options log :
  sign client "cosmos" doc signerAddress None options log
    = (Rejected ChainId_not_provided, log)
  /\ errorKind ChainId_not_provided = Some MissingChainId.
Proof. split; reflexivity. Qed.

(** C8.  With a chain id provided, signing a string document issues the
    one [cos_signMessage] request; when the wallet answers it, [sign]
    returns a [Signature] whose [signedDoc] is the input string and
    whose [signature.value] is the [signature] field of the answer. *)
Theorem sign_cosmos_message message signerAddress chainId options log response :
  chainId <> "" ->
  request client log Cosmos (cos_signMessage chainId signerAddress message)
    = Fulfilled response ->
  exists signature,
    sign client "cosmos" (JsString message) signerAddress (Some chainId)
         options log
      = (Fulfilled signature,
         log ++ [call_request Cosmos
                   (cos_signMessage chainId signerAddress message)])
    /\ Signature.signedDoc signature = JsString message
    /\ EncodedString.value (Signature.signature signature)
         = SignMessageResponse.signature response.
Proof.
  intros Hid Hanswer. unfold sign. change (switch "cosmos") with case_cosmos.
  cbv beta iota. rewrite (provided_nonempty _ Hid).
  unfold await, client_request, resolve. rewrite Hanswer.
  eexists. split; [reflexivity |]. split; reflexivity.
Qed.

(** C5.  With a chain id provided, signing a structured (non-string)
    document issues exactly one request: [cos_signDirect] when
    [isCosmosDirectDoc] holds of the document and [cos_signAmino] when
    it does not.  The [signedDoc] returned is the [signed_doc] of the
    wallet's answer; some wallet makes it differ from the input. *)
Theorem sign_cosmos_structured doc signerAddress chainId options log :
  typeof doc <> "string" ->
  chainId <> "" ->
  let params := signParams chainId doc options in
  let payload :=
    if isCosmosDirectDoc doc then cos_signDirect params
    else cos_signAmino params in
  let outcome :=
    sign client "cosmos" doc signerAddress (Some chainId) options log in
  snd outcome = log ++ [call_request Cosmos payload]
  /\ (method payload = "cos_signDirect" <-> isCosmosDirectDoc doc = true)
  /\ (method payload = "cos_signAmino" <-> isCosmosDirectDoc doc = false)
  /\ fst outcome =
       match request client log Cosmos payload with
       | Fulfilled response => Fulfilled (signatureOf response)
       | Rejected reason => Rejected reason
       end
  /\ (forall response,
        Signature.signedDoc (signatureOf response)
          = SignDocResponse.signed_doc response)
  /\ exists wallet signature,
       fst (sign wallet "cosmos" doc signerAddress (Some chainId)
                 options log) = Fulfilled signature
       /\ Signature.signedDoc signature <> doc.
Proof.
  intros Hdoc Hid params payload.
  assert (Hsign : forall wallet,
    sign wallet "cosmos" doc signerAddress (Some chainId) options log
    = await (client_request wallet Cosmos payload)
            (fun response => resolve (signatureOf response)) log).
  { intros wallet. unfold sign. change (switch "cosmos") with case_cosmos.
    cbv beta iota. rewrite (provided_nonempty _ Hid).
    destruct doc; try reflexivity. exfalso. apply Hdoc. reflexivity. }
  cbv zeta. rewrite Hsign. unfold await, client_request, resolve.
  split; [| split; [| split; [| split; [| split]]]].
  - destruct (request client log Cosmos payload); reflexivity.
  - subst payload. destruct (isCosmosDirectDoc doc); simpl; split; congruence.
  - subst payload. destruct (isCosmosDirectDoc doc); simpl; split; congruence.
  - destruct (request client log Cosmos payload); reflexivity.
  - reflexivity.
  - exists {| request := fun R _ _ payload =>
                match payload in Request R return Settled R with
                | cos_signDirect _ | cos_signAmino _ =>
                    Fulfilled {|
                      SignDocResponse.pub_key := stubPubKey;
                      SignDocResponse.signature := "";
                      SignDocResponse.signed_doc := JsString "" |}
                | _ => Rejected JsUndefined
                end;
              cosmos_on := fun _ _ _ => 0 |}.
    eexists. rewrite Hsign. unfold await, client_request, resolve. simpl.
    split.
    + subst payload. destruct (isCosmosDirectDoc doc); reflexivity.
    + simpl. intros <-. apply Hdoc. reflexivity.
Qed.
End Signing.

Section Verifying.
Context (client : Cosmostation).

(** C9.  [verify("cosmos", doc, signature, signerAddress, undefined)]
    rejects with 'ChainId not provided.' for every document, string or
    structured, and every signature: the chain id is checked before the
    shape of the document, and no request is issued. *)
Theorem verify_cosmos_chainId_omitted doc signature signerAddress log :
  verify client "cosmos" doc signature signerAddress None log
    = (Rejected ChainId_not_provided, log)
  /\ errorKind ChainId_not_provided = Some MissingChainId.
Proof. split; reflexivity. Qed.

(** C2, as the code has it.  [verify] is fulfilled only for namespace
    'cosmos' with a chain id provided and a string document, and it is
    then the wallet's answer to [cos_verifyMessage].  Any other
    namespace is rejected with 'Unmatched namespace.'
    (UnsupportedNamespace); 'cosmos' without a chain id with 'ChainId
    not provided.' (MissingChainId), whatever the document; 'cosmos'
    with a chain id and a document that is not a string with 'Only
    support message string verification.' (UnsupportedOperation).  None
    of the rejections issues a request. *)
Theorem verify_outcomes namespace doc signature signerAddress chainId log :
  let outcome :=
    verify client namespace doc signature signerAddress chainId log in
  (forall result, fst outcome = Fulfilled result ->
     namespace = "cosmos" /\ typeof doc = "string"
     /\ exists c, chainId = Some c /\ c <> "")
  /\ (namespace <> "cosmos" ->
      outcome = (Rejected Unmatched_namespace, log))
  /\ (namespace = "cosmos" -> provided chainId = None ->
      outcome = (Rejected ChainId_not_provided, log))
  /\ (namespace = "cosmos" -> provided chainId <> None ->
      typeof doc <> "string" ->
      outcome = (Rejected Only_support_message_string_verification, log))
  /\ (forall c message publicKey,
        namespace = "cosmos" -> provided chainId = Some c ->
        doc = JsString message ->
        Signature.publicKey signature = Some publicKey ->
        let payload :=
          cos_verifyMessage c signerAddress message (PubKey.value publicKey)
            (EncodedString.value (Signature.signature signature)) in
        outcome = (request client log Cosmos payload,
                   log ++ [call_request Cosmos payload]))
  /\ errorKind Unmatched_namespace = Some UnsupportedNamespace
  /\ errorKind ChainId_not_provided = Some MissingChainId
  /\ errorKind Only_support_message_string_verification
       = Some UnsupportedOperation.
Proof.
  cbv zeta. unfold verify.
  split; [| split; [| split; [| split; [| split]]]].
  - intros result. destruct (switch namespace) eqn:Hcase; try discriminate.
    apply switch_cosmos_iff in Hcase.
    destruct (provided chainId) as [c |] eqn:Hc; [| discriminate].
    destruct doc; try discriminate. intros _.
    split; [assumption |]. split; [reflexivity |].
    exists c. split; [apply provided_Some; assumption |].
    intros ->. pose proof (provided_Some _ _ Hc) as ->. discriminate Hc.
  - intros Hns. destruct (switch namespace) eqn:Hcase; try reflexivity.
    apply switch_cosmos_iff in Hcase. contradiction.
  - intros -> ->. reflexivity.
  - intros -> Hc Hdoc. change (switch "cosmos") with case_cosmos. cbv iota.
    destruct (provided chainId); [| contradiction].
    destruct doc; try reflexivity. exfalso. apply Hdoc. reflexivity.
  - intros c message publicKey -> -> -> ->.
    change (switch "cosmos") with case_cosmos. cbv iota beta.
    unfold await, client_request, resolve.
    destruct (request client log Cosmos _); reflexivity.
  - repeat split.
Qed.
End Verifying.

(** C2, as stated, fails at two inputs.  For namespace 'cosmos', a
    structured document and no chain id, [verify] rejects with 'ChainId
    not provided.', which is MissingChainId; for namespace 'ethereum' it
    rejects with 'Unmatched namespace.', which is UnsupportedNamespace.
    Neither is UnsupportedOperation. *)
Lemma verify_other_rejections :
  typeof (JsObject []) <> "string"
  /\ verify stubWallet "cosmos" (JsObject []) stubSignature "signer" None []
     = (Rejected ChainId_not_provided, [])
  /\ errorKind ChainId_not_provided = Some MissingChainId
  /\ errorKind ChainId_not_provided <> Some UnsupportedOperation
  /\ verify stubWallet "ethereum" (JsString "hello") stubSignature "signer"
       (Some "1") []
     = (Rejected Unmatched_namespace, [])
  /\ errorKind Unmatched_namespace = Some UnsupportedNamespace
  /\ errorKind Unmatched_namespace <> Some UnsupportedOperation.
Proof. repeat split; discriminate. Qed.

(** ** The event bridge *)

Lemma off_eventMap type listener this :
  eventMap (off type listener this) = eventMap this.
Proof. unfold off. destruct (_ ≫= _); reflexivity. Qed.

Lemma off_registered type listener this event :
  registered this type listener = Some event ->
  off type listener this
    = {| eventMap := eventMap this; log := log this ++ [call_off event] |}.
Proof. unfold registered, off. intros ->. reflexivity. Qed.

Lemma off_unregistered type listener this :
  registered this type listener = None -> off type listener this = this.
Proof. unfold registered, off. intros ->. reflexivity. Qed.

Lemma registered_off type listener type' listener' this :
  registered (off type listener this) type' listener'
    = registered this type' listener'.
Proof. unfold registered. rewrite off_eventMap. reflexivity. Qed.

Section EventBridge.
Context (client : Cosmostation).

Lemma on_log type listener this :
  log (on client type listener this) = log this ++ [call_on type listener].
Proof. reflexivity. Qed.

Lemma registered_on type listener this :
  registered (on client type listener this) type listener
    = Some (cosmos_on client (log this) type listener).
Proof.
  unfold registered, on, client_on. simpl.
  rewrite lookup_insert_eq. simpl. apply lookup_insert_eq.
Qed.

Lemma registered_on_other type listener type' listener' this :
  (type, listener) <> (type', listener') ->
  registered (on client type listener this) type' listener'
    = registered this type' listener'.
Proof.
  intros Hne. unfold registered, on, client_on. simpl.
  destruct (decide (type = type')) as [<- | Htype].
  - rewrite lookup_insert_eq. simpl.
    rewrite lookup_insert_ne by congruence.
    destruct (eventMap this !! type); [reflexivity | apply lookup_empty].
  - rewrite lookup_insert_ne by assumption. reflexivity.
Qed.

Lemma registered_bridge_step type listener this c :
  c <> bridge_on type listener ->
  registered (bridge_step client this c) type listener
    = registered this type listener.
Proof.
  intros Hc. destruct c as [type' listener' | type' listener']; simpl.
  - apply registered_on_other. congruence.
  - apply registered_off.
Qed.

Lemma registered_bridge_run type listener cs : forall this,
  Forall (fun c => c <> bridge_on type listener) cs ->
  registered (bridge_run client cs this) type listener
    = registered this type listener.
Proof.
  unfold bridge_run.
  induction cs as [| c cs IH]; intros this Hcs; simpl; [reflexivity |].
  inversion Hcs as [| ? ? Hc Hrest]; subst.
  rewrite IH by assumption. apply registered_bridge_step. assumption.
Qed.

(** C1, as the code has it.  After [on(type, listener)], the first
    [off(type, listener)] issues the native unsubscribe once, with the
    handle the wallet returned at registration, and leaves the registry
    as it was; the second [off(type, listener)] therefore finds the
    same handle and issues the native unsubscribe with it again. *)
Theorem on_off_off type listener this :
  let event := cosmos_on client (log this) type listener in
  let this1 := on client type listener this in
  let this2 := off type listener this1 in
  let this3 := off type listener this2 in
  registered this1 type listener = Some event
  /\ log this2 = log this1 ++ [call_off event]
  /\ eventMap this2 = eventMap this1
  /\ registered this2 type listener = Some event
  /\ log this3 = log this2 ++ [call_off event].
Proof.
  cbv zeta.
  pose proof (registered_on type listener this) as Hreg.
  rewrite (off_registered _ _ _ _ Hreg). simpl.
  split; [assumption |]. split; [reflexivity |]. split; [reflexivity |].
  split; [exact Hreg |].
  match goal with
  | |- log (off _ _ ?s) = _ =>
      rewrite (off_registered type listener s _ Hreg)
  end.
  reflexivity.
Qed.

Lemma log_bridge_step this c :
  length (log this) <= length (log (bridge_step client this c)).
Proof.
  destruct c as [type listener | type listener]; cbn [bridge_step].
  - rewrite on_log, length_app. simpl. lia.
  - unfold off. destruct (_ ≫= _); simpl; [rewrite length_app |]; lia.
Qed.

(** Once the wallet has stopped handing out a handle, the pair is never
    registered with it again. *)
Lemma registered_fresh type listener event n later : forall this,
  (forall log', n < length log' -> cosmos_on client log' type listener <> event) ->
  n < length (log this) ->
  (exists e, registered this type listener = Some e /\ e <> event) ->
  exists e,
    registered (bridge_run client later this) type listener = Some e
    /\ e <> event.
Proof.
  unfold bridge_run.
  induction later as [| c later IH]; intros this Hfresh Hlen Hreg; simpl;
    [assumption |].
  apply IH; [assumption | |].
  - pose proof (log_bridge_step this c). lia.
  - destruct (decide (c = bridge_on type listener)) as [-> | Hc].
    + simpl. rewrite registered_on. eexists. split; [reflexivity |].
      apply Hfresh. assumption.
    + rewrite registered_bridge_step by assumption. assumption.
Qed.

(** C10.  A second [on(type, listener)] with no [off] in between
    replaces the handle stored for the pair by the handle of the second
    registration.  The wallet hands out the first handle only once: the
    first handle is then no longer stored for the pair, and whatever uses
    of the bridge follow, [off(type, listener)] passes the native
    unsubscribe a handle that is not the first one; it is the second one
    as long as the pair is not registered again. *)
Theorem on_twice_overwrites type listener this later :
  let event1 := cosmos_on client (log this) type listener in
  let this1 := on client type listener this in
  let event2 := cosmos_on client (log this1) type listener in
  let this2 := on client type listener this1 in
  let this3 := bridge_run client later this2 in
  (forall log', length (log this) < length log' ->
                cosmos_on client log' type listener <> event1) ->
  registered this1 type listener = Some event1
  /\ registered this2 type listener = Some event2
  /\ registered this2 type listener <> Some event1
  /\ (exists event,
        registered this3 type listener = Some event
        /\ event <> event1
        /\ log (off type listener this3) = log this3 ++ [call_off event])
  /\ (Forall (fun c => c <> bridge_on type listener) later ->
      log (off type listener this3) = log this3 ++ [call_off event2]).
Proof.
  cbv zeta. intros Hfresh.
  pose proof (registered_on type listener this) as Hreg1.
  pose proof (registered_on type listener (on client type listener this))
    as Hreg2.
  assert (Hne : cosmos_on client (log (on client type listener this))
                  type listener
                <> cosmos_on client (log this) type listener).
  { apply Hfresh. rewrite on_log, length_app. simpl. lia. }
  split; [assumption |]. split; [assumption |].
  split; [rewrite Hreg2; congruence |]. split.
  - destruct (registered_fresh type listener _ (length (log this)) later
                (on client type listener (on client type listener this))
                Hfresh)
      as (event & Hevent & Hother).
    + rewrite !on_log, !length_app. simpl. lia.
    + eauto.
    + exists event. split; [assumption |]. split; [assumption |].
      rewrite (off_registered _ _ _ _ Hevent). reflexivity.
  - intros Hlater.
    pose proof (registered_bridge_run type listener later
                  (on client type listener (on client type listener this))
                  Hlater) as Hrun.
    rewrite Hreg2 in Hrun.
    rewrite (off_registered _ _ _ _ Hrun). reflexivity.
Qed.
End EventBridge.

(** C1, as stated, fails: with the stub wallet, the second
    [off("accountChanged", 1)] is not a no-op.  The entry is still
    registered after the first [off], and the log grows by a second native
    unsubscribe with the same handle. *)
Lemma off_twice_unsubscribes_twice :
  let this1 := on stubWallet "accountChanged" 1 initial in
  let this2 := off "accountChanged" 1 this1 in
  let this3 := off "accountChanged" 1 this2 in
  log this2 = [call_on "accountChanged" 1; call_off 0]
  /\ registered this2 "accountChanged" 1 = Some 0
  /\ log this3 = [call_on "accountChanged" 1; call_off 0; call_off 0]
  /\ this3 <> this2.
Proof.
  cbv zeta. split; [reflexivity |]. split; [reflexivity |].
  split; [reflexivity |].
  intros Heq. apply (f_equal (fun s => length (log s))) in Heq.
  vm_compute in Heq. discriminate.
Qed.

(** Two registrations of one pair with the stub wallet, which returns the
    handles 0 and 1, then a third registration of the pair and an [off]
    of another listener: [off] of the pair does not pass handle 0. *)
Lemma on_twice_overwrites_stub :
  let later := [bridge_on "accountChanged" 1; bridge_off "accountChanged" 3] in
  let this2 :=
    on stubWallet "accountChanged" 1 (on stubWallet "accountChanged" 1 initial) in
  let this3 := bridge_run stubWallet later this2 in
  (forall log' : Log, 0 < length log' -> length log' <> 0)
  /\ registered this2 "accountChanged" 1 = Some 1
  /\ exists event,
       registered this3 "accountChanged" 1 = Some event
       /\ event <> 0
       /\ log (off "accountChanged" 1 this3) = log this3 ++ [call_off event].
Proof.
  cbv zeta.
  assert (Hfresh : forall log' : Log, 0 < length log' -> length log' <> 0)
    by (intros log' Hlen; lia).
  destruct (on_twice_overwrites stubWallet "accountChanged" 1 initial
              [bridge_on "accountChanged" 1; bridge_off "accountChanged" 3]
              Hfresh)
    as (_ & H2 & _ & H4 & _).
  split; [exact Hfresh |]. split; [exact H2 | exact H4].
Defined.

(** ** Fan-out over an array *)

Lemma Promise_all_Fulfilled {A} (promises : list (Settled A)) values :
  Promise_all promises = Fulfilled values <-> promises = map Fulfilled values.
Proof.
  revert values.
  induction promises as [| [a | reason] rest IH]; intros values; simpl.
  - destruct values; simpl; split; congruence.
  - destruct (Promise_all rest) as [values' | reason] eqn:Hrest.
    + split.
      * intros [= <-]. simpl. f_equal. apply IH. reflexivity.
      * destruct values as [| v values]; simpl; intros [= -> Heq].
        apply IH in Heq. congruence.
    + split; [discriminate |].
      destruct values as [| v values]; simpl; intros [= -> Heq].
      apply IH in Heq. discriminate.
  - split; [discriminate |]. destruct values; discriminate.
Qed.

Lemma Promise_all_Rejected {A} (promises : list (Settled A)) reason :
  Promise_all promises = Rejected reason -> In (Rejected reason) promises.
Proof.
  induction promises as [| [a | reason'] rest IH]; simpl.
  - discriminate.
  - destruct (Promise_all rest); [discriminate |].
    intros [= ->]. right. apply IH. reflexivity.
  - intros [= ->]. left. reflexivity.
Qed.

Lemma Promise_all_rejects {A} (promises : list (Settled A)) reason :
  In (Rejected reason) promises ->
  exists reason', Promise_all promises = Rejected reason'.
Proof.
  induction promises as [| [a | reason'] rest IH]; simpl.
  - intros [].
  - intros [Heq | Hin]; [discriminate |].
    destruct (IH Hin) as [reason' ->]. eauto.
  - eauto.
Qed.

Lemma Promise_all_all_fulfilled {A} (promises : list (Settled A)) :
  Forall (fun p => isFulfilled p = true) promises ->
  exists values, Promise_all promises = Fulfilled values.
Proof.
  induction 1 as [| [a | reason] rest Hp _ [values IH]]; simpl.
  - eauto.
  - rewrite IH. eauto.
  - discriminate.
Qed.

(** The callbacks of the adapter only ever add to the log. *)
Lemma map_async_log {A B} (f : A -> Async B) (added : A -> Log) :
  (forall x log, snd (f x log) = log ++ added x) ->
  forall array log,
    snd (map_async f array log) = log ++ flat_map added array.
Proof.
  intros Hf array.
  induction array as [| x rest IH]; intros log; simpl.
  - rewrite app_nil_r. reflexivity.
  - specialize (Hf x log). destruct (f x log) as [p log1]. simpl in Hf.
    specialize (IH log1). destruct (map_async f rest log1) as [ps log2].
    simpl in *. subst. rewrite app_assoc. reflexivity.
Qed.

(** Each promise of [array.map(f)] is the outcome of [f] on its element. *)
Lemma map_async_outcomes {A B} (f : A -> Async B) array : forall log,
  Forall2 (fun x p => exists log1, p = fst (f x log1))
          array (fst (map_async f array log)).
Proof.
  induction array as [| x rest IH]; intros log; simpl.
  - constructor.
  - destruct (f x log) as [p log1] eqn:Hx.
    specialize (IH log1). destruct (map_async f rest log1) as [ps log2].
    simpl in *. constructor; [| assumption].
    exists log. rewrite Hx. reflexivity.
Qed.

Lemma Forall2_In_l {A B} (R : A -> B -> Prop) l k x :
  Forall2 R l k -> In x l -> exists y, In y k /\ R x y.
Proof.
  induction 1 as [| a b l k Hab _ IH]; simpl.
  - intros [].
  - intros [-> | Hin].
    + eauto.
    + destruct (IH Hin) as (y & Hy & Hxy). eauto.
Qed.

Lemma Forall2_In_r {A B} (R : A -> B -> Prop) l k y :
  Forall2 R l k -> In y k -> exists x, In x l /\ R x y.
Proof.
  induction 1 as [| a b l k Hab _ IH]; simpl.
  - intros [].
  - intros [-> | Hin].
    + eauto.
    + destruct (IH Hin) as (x & Hx & Hxy). eauto.
Qed.

(** ** connect *)

Section Connecting.
Context (client : Cosmostation).

Lemma connect_namespace_log entry log :
  snd (connect_namespace client entry log) = log ++ grantRequest entry.
Proof.
  destruct entry as [namespace e]. unfold connect_namespace, grantRequest. simpl.
  destruct (String.eqb_spec namespace "aptos") as [-> | Haptos].
  { change (switch "aptos") with case_aptos. cbv iota.
    unfold await, client_request. simpl.
    destruct (request client log Aptos aptos_connect); reflexivity. }
  destruct (String.eqb_spec namespace "sui") as [-> | Hsui].
  { change (switch "sui") with case_sui. cbv iota.
    unfold await, client_request. simpl.
    destruct (request client log Sui sui_connect); reflexivity. }
  rewrite app_nil_r.
  destruct (switch namespace) eqn:Hcase; try reflexivity.
  - apply switch_aptos_iff in Hcase. contradiction.
  - apply switch_sui_iff in Hcase. contradiction.
Qed.

Lemma connect_namespace_unmatched namespace e log :
  namespace <> "aptos" -> namespace <> "sui" ->
  connect_namespace client (namespace, e) log
    = (Rejected Unmatched_namespace, log).
Proof.
  intros Haptos Hsui. unfold connect_namespace.
  destruct (switch namespace) eqn:Hcase; try reflexivity.
  - apply switch_aptos_iff in Hcase. contradiction.
  - apply switch_sui_iff in Hcase. contradiction.
Qed.

Lemma connect_namespace_Rejected entry log reason :
  (forall log' provider (payload : Request JsValue),
     isFulfilled (request client log' provider payload) = true) ->
  fst (connect_namespace client entry log) = Rejected reason ->
  reason = Unmatched_namespace.
Proof.
  intros Hgrants. destruct entry as [namespace e]. unfold connect_namespace.
  destruct (switch namespace); simpl; try congruence.
  - unfold await, client_request, resolve.
    specialize (Hgrants log Aptos aptos_connect).
    destruct (request client log Aptos aptos_connect); simpl; discriminate.
  - unfold await, client_request, resolve.
    specialize (Hgrants log Sui sui_connect).
    destruct (request client log Sui sui_connect); simpl; discriminate.
Qed.

Lemma connect_outcome authRange log :
  fst (connect client authRange log)
    = match Promise_all (fst (map_async (connect_namespace client) authRange log)) with
      | Fulfilled _ => Fulfilled tt
      | Rejected reason => Rejected reason
      end.
Proof.
  unfold connect, await, Promise_all_map, resolve.
  destruct (map_async _ authRange log) as [ps log']. simpl.
  destruct (Promise_all ps); reflexivity.
Qed.

(** Splits a conjunction into its conjuncts, in order. *)
Ltac conjuncts := repeat match goal with |- _ /\ _ => split end.

(** A branch is fulfilled exactly when the wallet grants its request. *)
Lemma connect_namespace_granted entry log :
  isFulfilled (fst (connect_namespace client entry log))
    = granted client log entry.
Proof.
  destruct entry as [namespace e]. unfold connect_namespace, granted. simpl.
  destruct (String.eqb_spec namespace "aptos") as [-> | Haptos].
  { change (switch "aptos") with case_aptos. cbv iota.
    unfold await, client_request, resolve.
    destruct (request client log Aptos aptos_connect); reflexivity. }
  destruct (String.eqb_spec namespace "sui") as [-> | Hsui].
  { change (switch "sui") with case_sui. cbv iota.
    unfold await, client_request, resolve.
    destruct (request client log Sui sui_connect); reflexivity. }
  destruct (switch namespace) eqn:Hcase; try reflexivity.
  - apply switch_aptos_iff in Hcase. contradiction.
  - apply switch_sui_iff in Hcase. contradiction.
Qed.

(** A rejected branch has the reason of the guard or of the wallet. *)
Lemma connect_namespace_reason entry log reason :
  fst (connect_namespace client entry log) = Rejected reason ->
  reason = Unmatched_namespace
  \/ (fst entry = "aptos"
      /\ request client log Aptos aptos_connect = Rejected reason)
  \/ (fst entry = "sui"
      /\ request client log Sui sui_connect = Rejected reason).
Proof.
  destruct entry as [namespace e]. unfold connect_namespace. simpl.
  destruct (switch namespace) eqn:Hcase; simpl;
    try (intros [= <-]; left; reflexivity).
  - apply switch_aptos_iff in Hcase. subst.
    unfold await, client_request, resolve.
    destruct (request client log Aptos aptos_connect); simpl;
      [discriminate | intros [= ->]; right; left; split; reflexivity].
  - apply switch_sui_iff in Hcase. subst.
    unfold await, client_request, resolve.
    destruct (request client log Sui sui_connect); simpl;
      [discriminate | intros [= ->]; right; right; split; reflexivity].
Qed.

(** The branch of an entry runs when the grant requests of the entries
    before it have been made: all branches are fulfilled exactly when
    the wallet grants each entry's request at that point. *)
Lemma map_async_connect_granted authRange : forall log,
  Forall (fun p => isFulfilled p = true)
         (fst (map_async (connect_namespace client) authRange log))
  <-> (forall before entry after,
         authRange = before ++ entry :: after ->
         granted client (log ++ flat_map grantRequest before) entry = true).
Proof.
  induction authRange as [| x rest IH]; intros log.
  - split; [| constructor].
    intros _ [| y before] entry after; discriminate.
  - cbn [map_async].
    pose proof (connect_namespace_log x log) as Hlog.
    pose proof (connect_namespace_granted x log) as Hgranted.
    destruct (connect_namespace client x log) as [p log1].
    specialize (IH log1).
    destruct (map_async (connect_namespace client) rest log1) as [ps log2].
    cbn [fst snd] in *. subst log1. split.
    + intros Hall. inversion Hall as [| ? ? Hp Hps]; subst.
      intros [| y before] entry after Hsplit; simpl in Hsplit;
        injection Hsplit as <- Hrest.
      * subst. simpl. rewrite app_nil_r, <- Hgranted. assumption.
      * simpl. rewrite app_assoc.
        apply (proj1 IH Hps before entry after Hrest).
    + intros Hsplits. constructor.
      * rewrite Hgranted.
        specialize (Hsplits [] x rest eq_refl). simpl in Hsplits.
        rewrite app_nil_r in Hsplits. assumption.
      * apply IH. intros before entry after Hrest.
        specialize (Hsplits (x :: before) entry after).
        simpl in Hsplits. rewrite app_assoc in Hsplits.
        apply Hsplits. rewrite Hrest. reflexivity.
Qed.

(** C4.  [connect(authRange)] issues, in order, the native grant request
    of each namespace that has one ([aptos_connect], [sui_connect]).  The
    branch of a namespace with no binding rejects with 'Unmatched
    namespace.' (UnsupportedNamespace) and makes the whole call reject.
    The call is fulfilled exactly when every branch is; as soon as one
    branch is rejected the call is rejected with the reason of a rejected
    branch, whatever the other branches settled to.  When the wallet
    grants every request, that reason is 'Unmatched namespace.'.

    In terms of the wallet: the call is fulfilled exactly when every
    entry is aptos or sui and the wallet fulfils the grant request of
    each, made after those of the entries before it.  A single refused
    [aptos_connect] or [sui_connect] rejects the call, whatever the
    wallet granted to the other namespaces; a range of aptos and sui
    that the wallet grants is fulfilled.  A reason of the call is
    'Unmatched namespace.' or a reason the wallet gave. *)
Theorem connect_all_or_nothing authRange log :
  let outcomes := fst (map_async (connect_namespace client) authRange log) in
  snd (connect client authRange log) = log ++ flat_map grantRequest authRange
  /\ (forall namespace e,
        In (namespace, e) authRange ->
        namespace <> "aptos" -> namespace <> "sui" ->
        (forall log', connect_namespace client (namespace, e) log'
                      = (Rejected Unmatched_namespace, log'))
        /\ exists reason, fst (connect client authRange log) = Rejected reason)
  /\ (fst (connect client authRange log) = Fulfilled tt
      <-> Forall (fun p => isFulfilled p = true) outcomes)
  /\ (forall reason,
        In (Rejected reason) outcomes ->
        exists reason',
          fst (connect client authRange log) = Rejected reason'
          /\ In (Rejected reason') outcomes)
  /\ ((forall log' provider (payload : Request JsValue),
         isFulfilled (request client log' provider payload) = true) ->
      forall reason,
        fst (connect client authRange log) = Rejected reason ->
        reason = Unmatched_namespace)
  /\ errorKind Unmatched_namespace = Some UnsupportedNamespace
  /\ (fst (connect client authRange log) = Fulfilled tt
      <-> forall before entry after,
            authRange = before ++ entry :: after ->
            granted client (log ++ flat_map grantRequest before) entry = true)
  /\ (forall before namespace e after reason,
        authRange = before ++ (namespace, e) :: after ->
        (namespace = "aptos"
         /\ request client (log ++ flat_map grantRequest before)
                     Aptos aptos_connect
            = Rejected reason)
        \/ (namespace = "sui"
            /\ request client (log ++ flat_map grantRequest before)
                        Sui sui_connect
               = Rejected reason) ->
        exists reason', fst (connect client authRange log) = Rejected reason')
  /\ ((forall log' provider (payload : Request JsValue),
         isFulfilled (request client log' provider payload) = true) ->
      Forall (fun entry => fst entry = "aptos" \/ fst entry = "sui") authRange ->
      fst (connect client authRange log) = Fulfilled tt)
  /\ (forall reason,
        fst (connect client authRange log) = Rejected reason ->
        reason = Unmatched_namespace
        \/ exists log' provider (payload : Request JsValue),
             request client log' provider payload = Rejected reason).
Proof.
  cbv zeta.
  assert (Hrejects : forall reason,
    In (Rejected reason) (fst (map_async (connect_namespace client) authRange log)) ->
    exists reason',
      fst (connect client authRange log) = Rejected reason'
      /\ In (Rejected reason')
            (fst (map_async (connect_namespace client) authRange log))).
  { intros reason Hin. rewrite connect_outcome.
    destruct (Promise_all_rejects _ _ Hin) as [reason' Hall].
    rewrite Hall. exists reason'. split; [reflexivity |].
    apply Promise_all_Rejected. assumption. }
  assert (Hiff : fst (connect client authRange log) = Fulfilled tt
                 <-> forall before entry after,
                       authRange = before ++ entry :: after ->
                       granted client (log ++ flat_map grantRequest before)
                               entry = true).
  { rewrite <- map_async_connect_granted, connect_outcome. split.
    - destruct (Promise_all _) as [values |] eqn:Hall; [| discriminate].
      intros _. apply Promise_all_Fulfilled in Hall. rewrite Hall.
      apply List.Forall_forall. intros p Hp. apply in_map_iff in Hp.
      destruct Hp as (v & <- & _). reflexivity.
    - intros Hall. destruct (Promise_all_all_fulfilled _ Hall) as [values ->].
      reflexivity. }
  conjuncts.
  - unfold connect, await, Promise_all_map, resolve.
    pose proof (map_async_log (connect_namespace client) grantRequest
                  connect_namespace_log authRange log) as Hlog.
    destruct (map_async _ authRange log) as [ps log']. simpl in *.
    destruct (Promise_all ps); simpl; assumption.
  - intros namespace e Hin Haptos Hsui. split.
    + intros log'. apply connect_namespace_unmatched; assumption.
    + destruct (Forall2_In_l _ _ _ _
                  (map_async_outcomes (connect_namespace client) authRange log)
                  Hin) as (p & Hp & log1 & ->).
      rewrite connect_namespace_unmatched in Hp by assumption.
      destruct (Hrejects _ Hp) as (reason' & Hreason' & _). eauto.
  - rewrite connect_outcome. split.
    + destruct (Promise_all _) as [values |] eqn:Hall; [| discriminate].
      intros _. apply Promise_all_Fulfilled in Hall. rewrite Hall.
      apply List.Forall_forall. intros p Hp. apply in_map_iff in Hp.
      destruct Hp as (v & <- & _). reflexivity.
    + intros Hall. destruct (Promise_all_all_fulfilled _ Hall) as [values ->].
      reflexivity.
  - exact Hrejects.
  - intros Hgrants reason. rewrite connect_outcome.
    destruct (Promise_all _) as [values | reason'] eqn:Hall; [discriminate |].
    intros [= ->]. apply Promise_all_Rejected in Hall.
    destruct (Forall2_In_r _ _ _ _
                (map_async_outcomes (connect_namespace client) authRange log)
                Hall) as (entry & _ & log1 & Hentry).
    symmetry in Hentry.
    apply (connect_namespace_Rejected entry log1 reason Hgrants Hentry).
  - reflexivity.
  - exact Hiff.
  - intros before namespace e after reason Hsplit Hrefused.
    destruct (fst (connect client authRange log)) as [[] | reason'] eqn:Hcall;
      [| eauto].
    pose proof (proj1 Hiff eq_refl before (namespace, e) after Hsplit)
      as Hgranted.
    unfold granted in Hgranted. simpl in Hgranted.
    destruct Hrefused as [[-> Hanswer] | [-> Hanswer]];
      simpl in Hgranted; rewrite Hanswer in Hgranted; discriminate.
  - intros Hanswers Hbound. apply Hiff. intros before entry after Hsplit.
    assert (Hin : In entry authRange).
    { rewrite Hsplit. apply in_or_app. right. left. reflexivity. }
    pose proof (proj1 (List.Forall_forall _ _) Hbound entry Hin) as Hentry.
    destruct entry as [namespace e]. unfold granted. simpl in *.
    destruct Hentry as [-> | ->]; simpl; apply Hanswers.
  - intros reason. rewrite connect_outcome.
    destruct (Promise_all _) as [values | reason'] eqn:Hall; [discriminate |].
    intros [= ->]. apply Promise_all_Rejected in Hall.
    destruct (Forall2_In_r _ _ _ _
                (map_async_outcomes (connect_namespace client) authRange log)
                Hall) as (entry & _ & log1 & Hentry).
    symmetry in Hentry.
    destruct (connect_namespace_reason entry log1 reason Hentry)
      as [-> | [[_ Hanswer] | [_ Hanswer]]]; [left; reflexivity | |];
      right; eauto.
Qed.
End Connecting.

(** ** getAccounts *)

Lemma requestsTo_app provider log added :
  requestsTo provider (log ++ added)
    = requestsTo provider log ++ requestsTo provider added.
Proof. unfold requestsTo. apply List.filter_app. Qed.

Lemma map_async_requestsTo {A B} (f : A -> Async B) provider (added : A -> Log) :
  (forall x log,
     requestsTo provider (snd (f x log)) = requestsTo provider log ++ added x) ->
  forall array log,
    requestsTo provider (snd (map_async f array log))
      = requestsTo provider log ++ flat_map added array.
Proof.
  intros Hf array.
  induction array as [| x rest IH]; intros log; simpl.
  - rewrite app_nil_r. reflexivity.
  - specialize (Hf x log). destruct (f x log) as [p log1]. simpl in Hf.
    specialize (IH log1). destruct (map_async f rest log1) as [ps log2].
    simpl in *. rewrite IH, Hf, app_assoc. reflexivity.
Qed.

Lemma Promise_all_map_fst {A B} (f : A -> Async B) array log :
  fst (Promise_all_map f array log) = Promise_all (fst (map_async f array log)).
Proof.
  unfold Promise_all_map. destruct (map_async f array log). reflexivity.
Qed.

Lemma Promise_all_map_Fulfilled {A B} (f : A -> Async B) array log values :
  fst (Promise_all_map f array log) = Fulfilled values ->
  Forall2 (fun x v => exists log1, fst (f x log1) = Fulfilled v) array values.
Proof.
  unfold Promise_all_map.
  pose proof (map_async_outcomes f array log) as Houtcomes.
  destruct (map_async f array log) as [ps log']. simpl in *.
  intros Hall. apply Promise_all_Fulfilled in Hall. subst ps.
  revert array Houtcomes.
  induction values as [| v values IH]; intros array Houtcomes;
    inversion Houtcomes as [| x p array' ps (log1 & Hp) Hrest]; subst;
    constructor.
  - exists log1. symmetry. assumption.
  - apply IH. assumption.
Qed.



Section Accounts.
Context `{Imports} (client : Cosmostation).

Lemma getAccounts_outcome authRange log :
  getAccounts client authRange log
    = (match Promise_all
               (fst (map_async (getAccounts_namespace client) authRange log)) with
       | Fulfilled accountsList => Fulfilled (concat accountsList)
       | Rejected reason => Rejected reason
       end,
       snd (map_async (getAccounts_namespace client) authRange log)).
Proof.
  unfold getAccounts, await, Promise_all_map, resolve.
  destruct (map_async _ authRange log) as [ps log']. simpl.
  destruct (Promise_all ps); reflexivity.
Qed.

Lemma getAccounts_chainId_Fulfilled namespace chainId log account :
  fst (getAccounts_chainId client namespace chainId log) = Fulfilled account ->
  WalletAccount.namespace account = namespace
  /\ WalletAccount.chainId account = Some chainId
  /\ EncodedString.encoding (WalletAccount.address account) = Some "bech32"
  /\ exists publicKey,
       WalletAccount.publicKey account = Some publicKey
       /\ EncodedString.encoding publicKey = Some "hex".
Proof.
  unfold getAccounts_chainId, await, client_request, resolve.
  destruct (request client log Cosmos (cos_requestAccount chainId)) as [key |];
    simpl; [| discriminate].
  intros [= <-]. simpl. repeat split. eexists. split; reflexivity.
Qed.

Lemma getAccounts_chainId_log namespace chainId log :
  snd (getAccounts_chainId client namespace chainId log)
    = log ++ [call_request Cosmos (cos_requestAccount chainId)].
Proof.
  unfold getAccounts_chainId, await, client_request, resolve.
  destruct (request client log Cosmos (cos_requestAccount chainId)); reflexivity.
Qed.

Lemma requestsTo_accountRequests ids :
  requestsTo Cosmos
    (map (fun chainId => call_request Cosmos (cos_requestAccount chainId)) ids)
  = map (fun chainId => call_request Cosmos (cos_requestAccount chainId)) ids.
Proof.
  unfold requestsTo.
  induction ids as [| chainId ids IH]; simpl; [reflexivity |].
  f_equal. exact IH.
Qed.

(** A branch issues cosmos requests only for the chain ids of the cosmos
    entry. *)
Lemma getAccounts_namespace_requests entry log :
  requestsTo Cosmos (snd (getAccounts_namespace client entry log))
    = requestsTo Cosmos log ++ accountRequests entry.
Proof.
  destruct entry as [namespace [ids]].
  unfold getAccounts_namespace, accountRequests. simpl.
  destruct (String.eqb_spec namespace "cosmos") as [-> | Hns].
  - change (switch "cosmos") with case_cosmos. cbv iota.
    destruct ids as [ids |]; simpl; [| rewrite app_nil_r; reflexivity].
    unfold Promise_all_map.
    pose proof (map_async_log (getAccounts_chainId client "cosmos")
                  (fun chainId =>
                     [call_request Cosmos (cos_requestAccount chainId)])
                  (getAccounts_chainId_log "cosmos") ids log) as Hlog.
    destruct (map_async _ ids log) as [ps log']. simpl in *. subst log'.
    rewrite requestsTo_app. f_equal.
    replace (flat_map _ ids)
      with (map (fun chainId =>
                   call_request Cosmos (cos_requestAccount chainId)) ids).
    + apply requestsTo_accountRequests.
    + clear. induction ids; simpl; congruence.
  - rewrite app_nil_r.
    destruct (switch namespace) eqn:Hcase.
    + apply switch_cosmos_iff in Hcase. contradiction.
    + unfold await, client_request, resolve.
      destruct (request client log Ethereum eth_requestAccounts);
        simpl; rewrite requestsTo_app; simpl; apply app_nil_r.
    + unfold await, client_request, resolve.
      destruct (request client log Aptos aptos_account);
        simpl; rewrite requestsTo_app; simpl; apply app_nil_r.
    + unfold await, client_request, resolve.
      destruct (request client log Sui sui_getAccounts); simpl.
      * destruct (request client _ Sui sui_getPublicKey); simpl;
          rewrite !requestsTo_app; simpl; rewrite !app_nil_r; reflexivity.
      * rewrite requestsTo_app. simpl. apply app_nil_r.
    + reflexivity.
Qed.

(** The accounts of a branch carry the namespace of its entry. *)
Lemma getAccounts_namespace_namespace entry log accounts :
  fst (getAccounts_namespace client entry log) = Fulfilled accounts ->
  Forall (fun a => WalletAccount.namespace a = fst entry) accounts.
Proof.
  destruct entry as [namespace [ids]]. unfold getAccounts_namespace. simpl.
  destruct (switch namespace).
  - destruct ids as [ids |]; [| discriminate].
    intros Hall. apply Promise_all_map_Fulfilled in Hall.
    clear -Hall. induction Hall as [| chainId a ids accounts (log1 & Ha) _ IH];
      constructor; [| assumption].
    apply getAccounts_chainId_Fulfilled in Ha. apply Ha.
  - unfold await, client_request, resolve.
    destruct (request client log Ethereum eth_requestAccounts) as [addrs |];
      simpl; [| discriminate].
    intros [= <-]. apply List.Forall_forall. intros a Ha.
    apply in_map_iff in Ha. destruct Ha as (address & <- & _). reflexivity.
  - unfold await, client_request, resolve.
    destruct (request client log Aptos aptos_account) as [account |];
      simpl; [| discriminate].
    intros [= <-]. repeat constructor.
  - unfold await, client_request, resolve.
    destruct (request client log Sui sui_getAccounts) as [addrs |];
      simpl; [| discriminate].
    destruct (request client _ Sui sui_getPublicKey) as [key |];
      simpl; [| discriminate].
    intros [= <-]. apply List.Forall_forall. intros a Ha.
    apply in_map_iff in Ha. destruct Ha as (address & <- & _). reflexivity.
  - discriminate.
Qed.
Lemma accountsOf_app key accounts accounts' :
  accountsOf key (accounts ++ accounts')
    = accountsOf key accounts ++ accountsOf key accounts'.
Proof. unfold accountsOf. apply List.filter_app. Qed.

Lemma accountsOf_same key accounts :
  Forall (fun a => WalletAccount.namespace a = key) accounts ->
  accountsOf key accounts = accounts.
Proof.
  unfold accountsOf. induction 1 as [| a accounts Ha _ IH]; simpl.
  - reflexivity.
  - rewrite Ha, String.eqb_refl, IH. reflexivity.
Qed.

Lemma accountsOf_other key namespace accounts :
  namespace <> key ->
  Forall (fun a => WalletAccount.namespace a = namespace) accounts ->
  accountsOf key accounts = [].
Proof.
  intros Hne. unfold accountsOf. induction 1 as [| a accounts Ha _ IH]; simpl.
  - reflexivity.
  - rewrite Ha. destruct (String.eqb_spec namespace key); [contradiction |].
    exact IH.
Qed.

Lemma accountsOf_absent key authRange accountsList :
  Forall2 (branchOf client) authRange accountsList ->
  ~ In key (map fst authRange) ->
  accountsOf key (concat accountsList) = [].
Proof.
  induction 1 as [| entry accounts authRange accountsList (log1 & Hb) _ IH];
    simpl; [reflexivity |].
  intros Hfresh. rewrite accountsOf_app, IH by tauto.
  rewrite (accountsOf_other key (fst entry)); [reflexivity | tauto |].
  eapply getAccounts_namespace_namespace. eassumption.
Qed.

(** In the flattened result, the accounts of a namespace are those of its
    entry's branch. *)
Lemma accountsOf_entry key e authRange accountsList :
  Forall2 (branchOf client) authRange accountsList ->
  List.NoDup (map fst authRange) ->
  In (key, e) authRange ->
  branchOf client (key, e) (accountsOf key (concat accountsList)).
Proof.
  induction 1 as [| entry accounts authRange accountsList Hb Hrest IH];
    simpl; [intros _ [] |].
  intros Hnodup. inversion Hnodup as [| ? ? Hfresh Hnodup']; subst.
  rewrite accountsOf_app. intros [-> | Hin].
  - simpl in Hfresh.
    rewrite (accountsOf_absent key _ _ Hrest Hfresh), app_nil_r.
    destruct Hb as (log1 & Hb). rewrite accountsOf_same.
    + exists log1. assumption.
    + apply (getAccounts_namespace_namespace _ _ _ Hb).
  - destruct Hb as (log1 & Hb).
    rewrite (accountsOf_other key (fst entry)); [apply IH; assumption | |].
    + intros Heq. apply Hfresh. rewrite Heq.
      apply (in_map fst _ _ Hin).
    + apply (getAccounts_namespace_namespace _ _ _ Hb).
Qed.

Lemma accountRequests_absent authRange :
  ~ In "cosmos" (map fst authRange) -> flat_map accountRequests authRange = [].
Proof.
  induction authRange as [| [namespace e] rest IH]; simpl; [reflexivity |].
  intros Hfresh. rewrite IH by tauto. unfold accountRequests. simpl.
  destruct (String.eqb_spec namespace "cosmos"); [| reflexivity].
  exfalso. apply Hfresh. left. assumption.
Qed.

Lemma accountRequests_entry authRange e :
  List.NoDup (map fst authRange) ->
  In ("cosmos", e) authRange ->
  flat_map accountRequests authRange = accountRequests ("cosmos", e).
Proof.
  induction authRange as [| [namespace e'] rest IH]; simpl; [intros _ [] |].
  intros Hnodup. inversion Hnodup as [| ? ? Hfresh Hnodup']; subst.
  intros [[= -> ->] | Hin].
  - rewrite accountRequests_absent by assumption. apply app_nil_r.
  - rewrite IH by assumption.
    unfold accountRequests at 1. simpl.
    destruct (String.eqb_spec namespace "cosmos") as [-> | _]; [| reflexivity].
    exfalso. apply Hfresh. apply (in_map fst _ _ Hin).
Qed.

Lemma getAccounts_requests authRange log e :
  List.NoDup (map fst authRange) ->
  In ("cosmos", e) authRange ->
  requestsTo Cosmos (snd (getAccounts client authRange log))
    = requestsTo Cosmos log ++ accountRequests ("cosmos", e).
Proof.
  intros Hnodup Hin. rewrite getAccounts_outcome. simpl.
  rewrite (map_async_requestsTo _ Cosmos accountRequests
             getAccounts_namespace_requests).
  rewrite (accountRequests_entry _ _ Hnodup Hin). reflexivity.
Qed.


(** C6, as the code has it.  When the cosmos entry of [authRange] has no
    [chainIds], its branch rejects with 'No chainIds provided.'
    (MissingChainIds) without a request, [getAccounts] is rejected with
    the reason of one of its rejected branches, and the cosmos provider
    receives no request.  The reason of the call is 'No chainIds
    provided.' when no branch rejects with another reason. *)
Theorem getAccounts_cosmos_without_chainIds authRange log :
  List.NoDup (map fst authRange) ->
  In ("cosmos", {| chainIds := None |}) authRange ->
  let outcomes :=
    fst (map_async (getAccounts_namespace client) authRange log) in
  let outcome := getAccounts client authRange log in
  (forall log',
     getAccounts_namespace client ("cosmos", {| chainIds := None |}) log'
       = (Rejected No_chainIds_provided, log'))
  /\ In (Rejected No_chainIds_provided) outcomes
  /\ (exists reason,
        fst outcome = Rejected reason /\ In (Rejected reason) outcomes)
  /\ requestsTo Cosmos (snd outcome) = requestsTo Cosmos log
  /\ ((forall reason,
         In (Rejected reason) outcomes -> reason = No_chainIds_provided) ->
      fst outcome = Rejected No_chainIds_provided)
  /\ errorKind No_chainIds_provided = Some MissingChainIds.
Proof.
  intros Hnodup Hin. cbv zeta.
  assert (Hbranch : In (Rejected No_chainIds_provided)
            (fst (map_async (getAccounts_namespace client) authRange log))).
  { destruct (Forall2_In_l _ _ _ _
                (map_async_outcomes (getAccounts_namespace client) authRange log)
                Hin) as (p & Hp & log1 & ->).
    exact Hp. }
  assert (Hrejects : exists reason,
            fst (getAccounts client authRange log) = Rejected reason
            /\ In (Rejected reason)
                  (fst (map_async (getAccounts_namespace client) authRange log))).
  { rewrite getAccounts_outcome. simpl.
    destruct (Promise_all_rejects _ _ Hbranch) as [reason Hall].
    rewrite Hall. exists reason. split; [reflexivity |].
    apply Promise_all_Rejected. assumption. }
  split; [reflexivity |]. split; [assumption |]. split; [assumption |].
  split; [| split; [| reflexivity]].
  - rewrite (getAccounts_requests _ _ _ Hnodup Hin). apply app_nil_r.
  - intros Honly. destruct Hrejects as (reason & -> & Hreason).
    rewrite (Honly _ Hreason). reflexivity.
Qed.
End Accounts.

(** C6, as stated, fails when another branch rejects first: for
    [{foo: {}, cosmos: {}}] both branches reject at once, and
    [Promise.all] reports the first, 'Unmatched namespace.'
    (UnsupportedNamespace), not 'No chainIds provided.'. *)
Lemma getAccounts_unmatched_first :
  let authRange :=
    [("foo", {| chainIds := None |}); ("cosmos", {| chainIds := None |})] in
  List.NoDup (map fst authRange)
  /\ getAccounts (H := stubImports) stubWallet authRange []
     = (Rejected Unmatched_namespace, [])
  /\ errorKind Unmatched_namespace = Some UnsupportedNamespace
  /\ Unmatched_namespace <> No_chainIds_provided.
Proof.
  cbv zeta. split; [| split; [reflexivity | split; [reflexivity | discriminate]]].
  repeat constructor; simpl; intuition discriminate.
Qed.

(** ** The adapter on the stub wallet *)


(** Signing the message 'hello' for cosmoshub-4. *)
Lemma sign_cosmos_message_stub :
  "cosmoshub-4" <> ""
  /\ exists signature,
       sign (H := stubImports) stubWallet "cosmos" (JsString "hello") "cosmos1abc"
            (Some "cosmoshub-4") None []
         = (Fulfilled signature,
            [call_request Cosmos
               (cos_signMessage "cosmoshub-4" "cosmos1abc" "hello")])
       /\ Signature.signedDoc signature = JsString "hello"
       /\ EncodedString.value (Signature.signature signature) = "signed:hello".
Proof.
  assert (Hid : "cosmoshub-4" <> "") by discriminate.
  split; [exact Hid |].
  exact (sign_cosmos_message (H := stubImports) stubWallet "hello" "cosmos1abc"
           "cosmoshub-4" None []
           {| SignMessageResponse.pub_key := stubPubKey;
              SignMessageResponse.signature := "signed:hello" |}
           Hid eq_refl).
Defined.

(** Signing a direct document: the stub wallet returns a document with an
    edited memo, and that is the [signedDoc]. *)
Lemma sign_cosmos_structured_stub :
  let doc := JsObject [("bodyBytes", JsNull)] in
  let outcome :=
    sign (H := stubImports) stubWallet "cosmos" doc "cosmos1abc"
         (Some "cosmoshub-4") None [] in
  typeof doc <> "string"
  /\ "cosmoshub-4" <> ""
  /\ snd outcome
     = [call_request Cosmos (cos_signDirect (signParams "cosmoshub-4" doc None))]
  /\ exists signature,
       fst outcome = Fulfilled signature
       /\ Signature.signedDoc signature = JsObject [("memo", JsString "edited")].
Proof.
  cbv zeta.
  assert (Hdoc : typeof (JsObject [("bodyBytes", JsNull)]) <> "string")
    by discriminate.
  assert (Hid : "cosmoshub-4" <> "") by discriminate.
  destruct (sign_cosmos_structured (H := stubImports) stubWallet
              (JsObject [("bodyBytes", JsNull)]) "cosmos1abc" "cosmoshub-4"
              None [] Hdoc Hid)
    as (Hlog & _ & _ & Hresult & _ & _).
  split; [exact Hdoc |]. split; [exact Hid |]. split; [exact Hlog |].
  eexists. split; [exact Hresult | reflexivity].
Defined.


(** [getAccounts] over an ethereum entry and a cosmos entry without chain
    ids: the ethereum branch is fulfilled, the call rejects with 'No
    chainIds provided.' and the cosmos provider hears nothing. *)
Lemma getAccounts_cosmos_without_chainIds_stub :
  let authRange :=
    [("ethereum", {| chainIds := None |}); ("cosmos", {| chainIds := None |})] in
  let outcome := getAccounts (H := stubImports) stubWallet authRange [] in
  List.NoDup (map fst authRange)
  /\ In ("cosmos", {| chainIds := None |}) authRange
  /\ fst outcome = Rejected No_chainIds_provided
  /\ requestsTo Cosmos (snd outcome) = [].
Proof.
  cbv zeta.
  assert (Hnodup : List.NoDup (map fst
            [("ethereum", {| chainIds := None |});
             ("cosmos", {| chainIds := None |})])).
  { repeat constructor; simpl; intuition discriminate. }
  assert (Hin : In ("cosmos", {| chainIds := None |})
            [("ethereum", {| chainIds := None |});
             ("cosmos", {| chainIds := None |})]).
  { right. left. reflexivity. }
  destruct (getAccounts_cosmos_without_chainIds (H := stubImports) stubWallet
              _ [] Hnodup Hin)
    as (_ & _ & _ & Hrequests & Honly & _).
  split; [exact Hnodup |]. split; [exact Hin |].
  split; [| exact Hrequests].
  apply Honly. simpl. intros reason [Heq | [Heq | []]]; [discriminate |].
  injection Heq as <-. reflexivity.
Defined.

(** [connect] over aptos and cosmos: the aptos branch is granted, cosmos
    has no binding in [connect], and the call rejects. *)
Lemma connect_aptos_cosmos_stub :
  let authRange :=
    [("aptos", {| chainIds := None |});
     ("cosmos", {| chainIds := Some ["cosmoshub-4"] |})] in
  fst (map_async (connect_namespace stubWallet) authRange [])
    = [Fulfilled tt; Rejected Unmatched_namespace]
  /\ connect stubWallet authRange []
     = (Rejected Unmatched_namespace, [call_request Aptos aptos_connect]).
Proof. split; reflexivity. Qed.

(** With a wallet that refuses, [connect] over aptos and an unknown
    namespace still issues the aptos request, and rejects. *)
Lemma connect_refused :
  let authRange :=
    [("aptos", {| chainIds := None |}); ("foo", {| chainIds := None |})] in
  snd (connect refusingWallet authRange []) = [call_request Aptos aptos_connect]
  /\ isFulfilled (fst (connect refusingWallet authRange [])) = false.
Proof. split; reflexivity. Qed.

(** * Further properties *)

(** ** The event bridge over any sequence of uses *)

Lemma bridge_run_app client cs cs' this :
  bridge_run client (cs ++ cs') this
    = bridge_run client cs' (bridge_run client cs this).
Proof. unfold bridge_run. apply fold_left_app. Qed.

Lemma subscriptions_app log added :
  subscriptions (log ++ added) = subscriptions log ++ subscriptions added.
Proof. unfold subscriptions. apply flat_map_app. Qed.

Lemma unsubscriptions_app log added :
  unsubscriptions (log ++ added) = unsubscriptions log ++ unsubscriptions added.
Proof. unfold unsubscriptions. apply flat_map_app. Qed.

Section BridgeRuns.
Context (client : Cosmostation).

(** X1.  [off(type, listener)] for a pair that is not registered, and
    has not been registered by the uses of the bridge since, does
    nothing: no native call is issued and the registry is unchanged. *)
Theorem off_never_registered type listener cs this :
  registered this type listener = None ->
  Forall (fun c => c <> bridge_on type listener) cs ->
  off type listener (bridge_run client cs this) = bridge_run client cs this.
Proof.
  intros Hnone Hcs. apply off_unregistered.
  rewrite (registered_bridge_run client type listener cs this Hcs).
  exact Hnone.
Qed.

(** X2.  The registry never forgets: once a pair is registered it stays
    registered through every later [on] and [off], of this pair or of
    others, so that [off] of the pair always issues a native
    unsubscribe. *)
Theorem registered_for_good type listener cs : forall this,
  is_Some (registered this type listener) ->
  exists event,
    registered (bridge_run client cs this) type listener = Some event
    /\ log (off type listener (bridge_run client cs this))
       = log (bridge_run client cs this) ++ [call_off event].
Proof.
  assert (Hkept : forall this,
    is_Some (registered this type listener) ->
    is_Some (registered (bridge_run client cs this) type listener)).
  { unfold bridge_run.
    induction cs as [| c cs IH]; intros this Hreg; simpl; [assumption |].
    apply IH.
    destruct (decide (c = bridge_on type listener)) as [-> | Hc].
    - simpl. rewrite registered_on. eauto.
    - rewrite registered_bridge_step by assumption. assumption. }
  intros this Hreg. destruct (Hkept this Hreg) as [event Hevent].
  exists event. split; [assumption |].
  rewrite (off_registered _ _ _ _ Hevent). reflexivity.
Qed.

(** X3.  The handle stored for a pair is the one the wallet returned at
    the latest [on] of the pair, whatever was registered or unregistered
    before and after. *)
Theorem latest_registration_stored type listener before after this :
  Forall (fun c => c <> bridge_on type listener) after ->
  registered
    (bridge_run client (before ++ bridge_on type listener :: after) this)
    type listener
  = Some (cosmos_on client (log (bridge_run client before this)) type listener).
Proof.
  intros Hafter.
  change (before ++ bridge_on type listener :: after)
    with (before ++ [bridge_on type listener] ++ after).
  rewrite !bridge_run_app.
  rewrite (registered_bridge_run client type listener after _ Hafter).
  apply registered_on.
Qed.

(** X4.  Every [on] subscribes natively, whether or not the pair is
    already registered: the native subscriptions in the log are the [on]
    calls, in order.  The native unsubscriptions are at most as many as
    the [off] calls. *)
Theorem native_subscriptions cs : forall this,
  subscriptions (log (bridge_run client cs this))
    = subscriptions (log this) ++ registrations cs
  /\ length (unsubscriptions (log (bridge_run client cs this)))
       + length (registrations cs)
     <= length (unsubscriptions (log this)) + length cs.
Proof.
  unfold bridge_run.
  induction cs as [| c cs IH]; intros this; simpl.
  - rewrite app_nil_r. split; [reflexivity | lia].
  - destruct (IH (bridge_step client this c)) as [Hsubs Hunsubs].
    destruct c as [type listener | type listener]; cbn [bridge_step] in *.
    + rewrite on_log, subscriptions_app in Hsubs.
      rewrite on_log, unsubscriptions_app in Hunsubs.
      simpl in *. rewrite length_app in *. simpl in *.
      split; [rewrite Hsubs, <- app_assoc; reflexivity | lia].
    + unfold off in *.
      destruct (eventMap this !! type ≫= _) as [event |]; simpl in *.
      * rewrite subscriptions_app in Hsubs.
        rewrite unsubscriptions_app, length_app in Hunsubs. simpl in *.
        rewrite app_nil_r in Hsubs. split; [assumption | lia].
      * split; [assumption | lia].
Qed.
End BridgeRuns.

(** With the stub wallet: [off] of a listener that was never registered,
    after another listener was. *)
Lemma off_never_registered_stub :
  let cs := [bridge_on "accountChanged" 1; bridge_off "accountChanged" 1] in
  registered initial "accountChanged" 2 = None
  /\ Forall (fun c => c <> bridge_on "accountChanged" 2) cs
  /\ off "accountChanged" 2 (bridge_run stubWallet cs initial)
     = bridge_run stubWallet cs initial.
Proof.
  cbv zeta.
  assert (Hnone : registered initial "accountChanged" 2 = None) by reflexivity.
  assert (Hcs : Forall (fun c => c <> bridge_on "accountChanged" 2)
            [bridge_on "accountChanged" 1; bridge_off "accountChanged" 1])
    by (repeat constructor; discriminate).
  split; [exact Hnone |]. split; [exact Hcs |].
  exact (off_never_registered stubWallet "accountChanged" 2 _ initial Hnone Hcs).
Defined.

(** With the stub wallet: a registered pair survives two [off] calls and
    a registration of another listener. *)
Lemma registered_for_good_stub :
  let this := on stubWallet "accountChanged" 1 initial in
  let cs := [bridge_off "accountChanged" 1; bridge_on "accountChanged" 2;
             bridge_off "accountChanged" 1] in
  is_Some (registered this "accountChanged" 1)
  /\ exists event,
       registered (bridge_run stubWallet cs this) "accountChanged" 1 = Some event
       /\ log (off "accountChanged" 1 (bridge_run stubWallet cs this))
          = log (bridge_run stubWallet cs this) ++ [call_off event].
Proof.
  cbv zeta.
  assert (Hreg : is_Some (registered (on stubWallet "accountChanged" 1 initial)
                            "accountChanged" 1))
    by (exists 0; reflexivity).
  split; [exact Hreg |].
  exact (registered_for_good stubWallet "accountChanged" 1 _ _ Hreg).
Defined.

(** With the stub wallet: three registrations of one pair, the last one
    after an [off]; the handle stored is the third. *)
Lemma latest_registration_stored_stub :
  let before := [bridge_on "accountChanged" 1; bridge_on "accountChanged" 1;
                 bridge_off "accountChanged" 1] in
  let after := [bridge_on "accountChanged" 2] in
  Forall (fun c => c <> bridge_on "accountChanged" 1) after
  /\ registered
       (bridge_run stubWallet (before ++ bridge_on "accountChanged" 1 :: after)
          initial)
       "accountChanged" 1
     = Some 3.
Proof.
  cbv zeta.
  assert (Hafter : Forall (fun c => c <> bridge_on "accountChanged" 1)
            [bridge_on "accountChanged" 2])
    by (repeat constructor; discriminate).
  split; [exact Hafter |].
  exact (latest_registration_stored stubWallet "accountChanged" 1
           [bridge_on "accountChanged" 1; bridge_on "accountChanged" 1;
            bridge_off "accountChanged" 1]
           _ initial Hafter).
Defined.

(** ** Signing and verifying, the other cases *)

Lemma switch_ethereum_iff namespace :
  switch namespace = case_ethereum <-> namespace = "ethereum".
Proof.
  unfold switch. split.
  - destruct (String.eqb_spec namespace "ethereum") as [-> | _]; [reflexivity |].
    repeat (case String.eqb; try discriminate).
  - intros ->. reflexivity.
Qed.

Section SigningMore.
Context `{Imports} (client : Cosmostation).

(** X5.  [sign("ethereum", ...)] issues exactly one request to the
    ethereum provider: [eth_sign] for a string document,
    [eth_signTransaction] for a document of transaction shape and
    [eth_signTypedData_v4] for any other.  A signature it returns echoes
    the input document as [signedDoc] and has no public key.  Chain id
    and options play no part. *)
Theorem sign_ethereum doc signerAddress chainId options log :
  let outcome := sign client "ethereum" doc signerAddress chainId options log in
  (exists call,
     snd outcome = log ++ [call]
     /\ isRequestTo Ethereum call = true
     /\ callMethod call
        = Some (if String.eqb (typeof doc) "string" then "eth_sign"
                else if isEthTransactionDoc doc then "eth_signTransaction"
                else "eth_signTypedData_v4"))
  /\ (forall signature,
        fst outcome = Fulfilled signature ->
        Signature.signedDoc signature = doc
        /\ Signature.publicKey signature = None)
  /\ outcome = sign client "ethereum" doc signerAddress None None log.
Proof.
  cbv zeta. unfold sign. change (switch "ethereum") with case_ethereum.
  cbv iota. unfold await, client_request, resolve.
  destruct doc; simpl;
    try (destruct (isEthTransactionDoc _));
    match goal with
    | |- context [request client log Ethereum ?payload] =>
        destruct (request client log Ethereum payload); simpl
    end;
    (split; [eexists; split; [reflexivity | split; reflexivity] |]);
    (split; [| reflexivity]);
    intros signature; try discriminate;
    intros [= <-]; split; reflexivity.
Qed.

(** X6.  [sign] knows two namespaces.  For any other one, aptos and sui
    included, it rejects with 'Unmatched namespace.' and issues no
    request. *)
Theorem sign_unmatched namespace doc signerAddress chainId options log :
  namespace <> "cosmos" ->
  namespace <> "ethereum" ->
  sign client namespace doc signerAddress chainId options log
    = (Rejected Unmatched_namespace, log).
Proof.
  intros Hcosmos Hethereum. unfold sign.
  destruct (switch namespace) eqn:Hcase; try reflexivity.
  - apply switch_cosmos_iff in Hcase. contradiction.
  - apply switch_ethereum_iff in Hcase. contradiction.
Qed.

(** X7.  An empty chain id counts as none: with [chainId] the empty
    string, [sign] and [verify] for 'cosmos' reject with 'ChainId not
    provided.' and issue no request, whatever the document. *)
Theorem empty_chainId_not_provided doc signature signerAddress options log :
  sign client "cosmos" doc signerAddress (Some "") options log
    = (Rejected ChainId_not_provided, log)
  /\ verify client "cosmos" doc signature signerAddress (Some "") log
     = (Rejected ChainId_not_provided, log).
Proof. split; reflexivity. Qed.

(** X8.  [verify] reads [signature.publicKey.value]: for a signature
    without a public key it rejects with a [TypeError], none of the
    adapter's own reasons, before any request is issued. *)
Theorem verify_without_publicKey message signature signerAddress chainId log :
  chainId <> "" ->
  Signature.publicKey signature = None ->
  verify client "cosmos" (JsString message) signature signerAddress
         (Some chainId) log
    = (Rejected TypeError_undefined, log)
  /\ errorKind TypeError_undefined = None.
Proof.
  intros Hid Hkey. unfold verify. change (switch "cosmos") with case_cosmos.
  cbv iota. rewrite (provided_nonempty _ Hid), Hkey. split; reflexivity.
Qed.

(** X9.  Signing a message and verifying the result: [verify], given the
    [signedDoc] and the signature that [sign] returned, sends the wallet
    the same chain, signer and message together with the [pub_key.value]
    and the [signature] of the wallet's sign answer, and settles as the
    wallet answers. *)
Theorem sign_then_verify message signerAddress chainId options log signature log1 :
  sign client "cosmos" (JsString message) signerAddress (Some chainId)
       options log
    = (Fulfilled signature, log1) ->
  exists response,
    request client log Cosmos (cos_signMessage chainId signerAddress message)
      = Fulfilled response
    /\ let payload :=
         cos_verifyMessage chainId signerAddress message
           (PubKey.value (SignMessageResponse.pub_key response))
           (SignMessageResponse.signature response) in
       verify client "cosmos" (Signature.signedDoc signature) signature
              signerAddress (Some chainId) log1
         = (request client log1 Cosmos payload,
            log1 ++ [call_request Cosmos payload]).
Proof.
  unfold sign, verify. change (switch "cosmos") with case_cosmos. cbv iota.
  destruct (provided (Some chainId)) as [c |] eqn:Hc; [| discriminate].
  apply provided_Some in Hc. injection Hc as <-.
  unfold await, client_request, resolve.
  destruct (request client log Cosmos
              (cos_signMessage chainId signerAddress message))
    as [response |]; [| discriminate].
  intros [= <- <-]. exists response. split; [reflexivity |]. simpl.
  destruct (request client _ Cosmos _); reflexivity.
Qed.

(** X10.  A signature that [sign] returned for 'ethereum' cannot be
    verified: whatever the namespace, document and chain id, [verify]
    rejects it without a request. *)
Theorem ethereum_signature_not_verified
    doc signerAddress chainId options log signature :
  fst (sign client "ethereum" doc signerAddress chainId options log)
    = Fulfilled signature ->
  forall namespace doc' signerAddress' chainId' log',
  exists reason,
    verify client namespace doc' signature signerAddress' chainId' log'
      = (Rejected reason, log').
Proof.
  intros Hsign.
  assert (Hkey : Signature.publicKey signature = None).
  { revert Hsign. unfold sign. change (switch "ethereum") with case_ethereum.
    cbv iota. unfold await, client_request, resolve.
    destruct doc; simpl;
      try (destruct (isEthTransactionDoc _));
      match goal with
      | |- context [request client log Ethereum ?payload] =>
          destruct (request client log Ethereum payload); simpl
      end;
      try discriminate; intros [= <-]; reflexivity. }
  intros namespace doc' signerAddress' chainId' log'. unfold verify.
  destruct (switch namespace); try (eexists; reflexivity).
  destruct (provided chainId'); [| eexists; reflexivity].
  destruct doc'; try (eexists; reflexivity).
  rewrite Hkey. eexists. reflexivity.
Qed.
End SigningMore.

(** [sign] for namespace 'sui', which [connect] accepts. *)
Lemma sign_unmatched_stub :
  "sui" <> "cosmos" /\ "sui" <> "ethereum"
  /\ sign (H := stubImports) stubWallet "sui" (JsString "hello") "0xa1" None None []
     = (Rejected Unmatched_namespace, []).
Proof.
  assert (Hcosmos : "sui" <> "cosmos") by discriminate.
  assert (Hethereum : "sui" <> "ethereum") by discriminate.
  split; [exact Hcosmos |]. split; [exact Hethereum |].
  exact (sign_unmatched (H := stubImports) stubWallet "sui" (JsString "hello")
           "0xa1" None None [] Hcosmos Hethereum).
Defined.

(** [verify] with a signature that has no public key. *)
Lemma verify_without_publicKey_stub :
  let signature := {|
    Signature.publicKey := None;
    Signature.signature :=
      {| EncodedString.value := "0xsig"; EncodedString.encoding := None |};
    Signature.signedDoc := JsString "hello" |} in
  "cosmoshub-4" <> ""
  /\ Signature.publicKey signature = None
  /\ verify stubWallet "cosmos" (JsString "hello") signature "cosmos1abc"
            (Some "cosmoshub-4") []
     = (Rejected TypeError_undefined, []).
Proof.
  cbv zeta.
  assert (Hid : "cosmoshub-4" <> "") by discriminate.
  split; [exact Hid |]. split; [reflexivity |].
  exact (proj1 (verify_without_publicKey stubWallet "hello"
                  {| Signature.publicKey := None;
                     Signature.signature :=
                       {| EncodedString.value := "0xsig";
                          EncodedString.encoding := None |};
                     Signature.signedDoc := JsString "hello" |}
                  "cosmos1abc" "cosmoshub-4" [] Hid eq_refl)).
Defined.

(** Signing 'hello' with the stub wallet and verifying the result. *)
Lemma sign_then_verify_stub :
  exists signature log1,
    sign (H := stubImports) stubWallet "cosmos" (JsString "hello") "cosmos1abc"
         (Some "cosmoshub-4") None []
      = (Fulfilled signature, log1)
    /\ verify stubWallet "cosmos" (Signature.signedDoc signature) signature
              "cosmos1abc" (Some "cosmoshub-4") log1
       = (Fulfilled true,
          log1 ++ [call_request Cosmos
                     (cos_verifyMessage "cosmoshub-4" "cosmos1abc" "hello"
                        "A08E" "signed:hello")]).
Proof.
  eexists. eexists.
  assert (Hsign :
    sign (H := stubImports) stubWallet "cosmos" (JsString "hello") "cosmos1abc"
         (Some "cosmoshub-4") None []
    = (Fulfilled _, _)) by reflexivity.
  split; [exact Hsign |].
  destruct (sign_then_verify (H := stubImports) stubWallet "hello" "cosmos1abc"
              "cosmoshub-4" None [] _ _ Hsign)
    as (response & Hresponse & Hverify).
  injection Hresponse as <-. exact Hverify.
Defined.

(** A typed-data signature of the stub wallet, offered to [verify] for
    'cosmos'. *)
Lemma ethereum_signature_not_verified_stub :
  exists signature,
    fst (sign (H := stubImports) stubWallet "ethereum" (JsObject []) "0xa1"
              None None [])
      = Fulfilled signature
    /\ exists reason,
         verify stubWallet "cosmos" (JsString "hello") signature "cosmos1abc"
                (Some "cosmoshub-4") []
           = (Rejected reason, []).
Proof.
  eexists.
  assert (Hsign :
    fst (sign (H := stubImports) stubWallet "ethereum" (JsObject []) "0xa1"
              None None [])
    = Fulfilled _) by reflexivity.
  split; [exact Hsign |].
  exact (ethereum_signature_not_verified (H := stubImports) stubWallet _ _ _ _ _ _
           Hsign "cosmos" (JsString "hello") "cosmos1abc" (Some "cosmoshub-4") []).
Defined.

(** ** getAccounts, the other namespaces *)

Section AccountsMore.
Context `{Imports} (client : Cosmostation).

Lemma getAccounts_Fulfilled authRange log accounts :
  fst (getAccounts client authRange log) = Fulfilled accounts ->
  exists accountsList,
    accounts = concat accountsList
    /\ Forall2 (branchOf client) authRange accountsList.
Proof.
  rewrite getAccounts_outcome. simpl.
  destruct (Promise_all _) as [accountsList |] eqn:Hall; [| discriminate].
  intros [= <-]. exists accountsList. split; [reflexivity |].
  apply (Promise_all_map_Fulfilled _ authRange log).
  rewrite Promise_all_map_fst. exact Hall.
Qed.

Lemma getAccounts_branch authRange log accounts key e :
  List.NoDup (map fst authRange) ->
  In (key, e) authRange ->
  fst (getAccounts client authRange log) = Fulfilled accounts ->
  exists log1,
    fst (getAccounts_namespace client (key, e) log1)
      = Fulfilled (accountsOf key accounts).
Proof.
  intros Hnodup Hin Hfulfilled.
  destruct (getAccounts_Fulfilled _ _ _ Hfulfilled) as (accountsList & -> & Hb).
  exact (accountsOf_entry client _ _ _ _ Hb Hnodup Hin).
Qed.

(** X11.  [accountsList.flat()]: a fulfilled [getAccounts] returns the
    accounts of its branches, concatenated in the order of the entries of
    [authRange].  Every account carries the namespace of an entry, and
    the accounts of one namespace are exactly what the branch of its
    entry was fulfilled with. *)
Theorem getAccounts_flat authRange log accounts :
  fst (getAccounts client authRange log) = Fulfilled accounts ->
  (exists accountsList,
     accounts = concat accountsList
     /\ Forall2 (branchOf client) authRange accountsList)
  /\ Forall (fun a => In (WalletAccount.namespace a) (map fst authRange))
            accounts
  /\ (List.NoDup (map fst authRange) ->
      forall key e,
        In (key, e) authRange ->
        branchOf client (key, e) (accountsOf key accounts)).
Proof.
  intros Hfulfilled.
  destruct (getAccounts_Fulfilled _ _ _ Hfulfilled) as (accountsList & -> & Hb).
  split; [eauto |]. split.
  - clear Hfulfilled.
    induction Hb as [| entry accs authRange accountsList (log1 & Hacc) _ IH];
      simpl; [constructor |].
    apply Forall_app. split.
    + apply getAccounts_namespace_namespace in Hacc.
      revert Hacc. apply List.Forall_impl. intros a ->. left. reflexivity.
    + revert IH. apply List.Forall_impl. intros a Ha. right. assumption.
  - intros Hnodup key e Hin.
    exact (accountsOf_entry client _ _ _ _ Hb Hnodup Hin).
Qed.

(** X12.  The ethereum accounts of a fulfilled [getAccounts] are the
    addresses the wallet answered [eth_requestAccounts] with, in order,
    each encoded 'hex' and with no public key, chain id, user name or
    algorithm. *)
Theorem getAccounts_ethereum authRange e log accounts :
  List.NoDup (map fst authRange) ->
  In ("ethereum", e) authRange ->
  fst (getAccounts client authRange log) = Fulfilled accounts ->
  exists log1 ethAddrs,
    request client log1 Ethereum eth_requestAccounts = Fulfilled ethAddrs
    /\ map (fun a => EncodedString.value (WalletAccount.address a))
           (accountsOf "ethereum" accounts)
       = ethAddrs
    /\ Forall (fun a =>
         EncodedString.encoding (WalletAccount.address a) = Some "hex"
         /\ WalletAccount.publicKey a = None
         /\ WalletAccount.chainId a = None
         /\ WalletAccount.username a = None
         /\ WalletAccount.algo a = None)
         (accountsOf "ethereum" accounts).
Proof.
  intros Hnodup Hin Hfulfilled.
  destruct (getAccounts_branch _ _ _ _ _ Hnodup Hin Hfulfilled) as (log1 & Hb).
  revert Hb. unfold getAccounts_namespace.
  change (switch "ethereum") with case_ethereum. cbv iota.
  unfold await, client_request, resolve.
  destruct (request client log1 Ethereum eth_requestAccounts)
    as [ethAddrs |] eqn:Hanswer; simpl; [| discriminate].
  intros [= <-]. exists log1, ethAddrs. split; [assumption |]. split.
  - rewrite map_map. simpl. apply map_id.
  - apply List.Forall_forall. intros a Ha. apply in_map_iff in Ha.
    destruct Ha as (address & <- & _). repeat split.
Qed.

(** X13.  The sui accounts of a fulfilled [getAccounts] are the addresses
    the wallet answered [sui_getAccounts] with, in order, and all of them
    carry the one public key the wallet answered [sui_getPublicKey]
    with. *)
Theorem getAccounts_sui authRange e log accounts :
  List.NoDup (map fst authRange) ->
  In ("sui", e) authRange ->
  fst (getAccounts client authRange log) = Fulfilled accounts ->
  exists log1 suiAddrs suiPublicKey,
    request client log1 Sui sui_getAccounts = Fulfilled suiAddrs
    /\ request client (log1 ++ [call_request Sui sui_getAccounts])
               Sui sui_getPublicKey
       = Fulfilled suiPublicKey
    /\ map (fun a => EncodedString.value (WalletAccount.address a))
           (accountsOf "sui" accounts)
       = suiAddrs
    /\ Forall (fun a =>
         EncodedString.encoding (WalletAccount.address a) = Some "hex"
         /\ WalletAccount.publicKey a
            = Some {| EncodedString.value := suiPublicKey;
                      EncodedString.encoding := Some "hex" |})
         (accountsOf "sui" accounts).
Proof.
  intros Hnodup Hin Hfulfilled.
  destruct (getAccounts_branch _ _ _ _ _ Hnodup Hin Hfulfilled) as (log1 & Hb).
  revert Hb. unfold getAccounts_namespace.
  change (switch "sui") with case_sui. cbv iota.
  unfold await, client_request, resolve.
  destruct (request client log1 Sui sui_getAccounts)
    as [suiAddrs |] eqn:Haddrs; simpl; [| discriminate].
  destruct (request client _ Sui sui_getPublicKey)
    as [suiPublicKey |] eqn:Hkey; simpl; [| discriminate].
  intros [= <-]. exists log1, suiAddrs, suiPublicKey.
  split; [assumption |]. split; [assumption |]. split.
  - rewrite map_map. simpl. apply map_id.
  - apply List.Forall_forall. intros a Ha. apply in_map_iff in Ha.
    destruct Ha as (address & <- & _). repeat split.
Qed.

(** X14.  A fulfilled [getAccounts] has exactly one aptos account: the
    address and the public key of the wallet's answer to
    [aptos_account], both encoded 'hex'. *)
Theorem getAccounts_aptos authRange e log accounts :
  List.NoDup (map fst authRange) ->
  In ("aptos", e) authRange ->
  fst (getAccounts client authRange log) = Fulfilled accounts ->
  exists log1 answer account,
    request client log1 Aptos aptos_account = Fulfilled answer
    /\ accountsOf "aptos" accounts = [account]
    /\ WalletAccount.address account
       = {| EncodedString.value := AptosAccount.address answer;
            EncodedString.encoding := Some "hex" |}
    /\ WalletAccount.publicKey account
       = Some {| EncodedString.value := AptosAccount.publicKey answer;
                 EncodedString.encoding := Some "hex" |}.
Proof.
  intros Hnodup Hin Hfulfilled.
  destruct (getAccounts_branch _ _ _ _ _ Hnodup Hin Hfulfilled) as (log1 & Hb).
  revert Hb. unfold getAccounts_namespace.
  change (switch "aptos") with case_aptos. cbv iota.
  unfold await, client_request, resolve.
  destruct (request client log1 Aptos aptos_account)
    as [answer |] eqn:Hanswer; simpl; [| discriminate].
  intros [= <-]. exists log1, answer. eexists.
  split; [assumption |]. split; [reflexivity |]. split; reflexivity.
Qed.

(** The branch of a namespace other than cosmos does not read its
    entry. *)
Lemma getAccounts_namespace_entry namespace e e' log :
  namespace <> "cosmos" ->
  getAccounts_namespace client (namespace, e) log
    = getAccounts_namespace client (namespace, e') log.
Proof.
  intros Hns. unfold getAccounts_namespace.
  destruct (switch namespace) eqn:Hcase; try reflexivity.
  apply switch_cosmos_iff in Hcase. contradiction.
Qed.

Lemma getAccounts_namespace_same entry entry' log :
  fst entry = fst entry' ->
  (fst entry = "cosmos" -> snd entry = snd entry') ->
  getAccounts_namespace client entry log
    = getAccounts_namespace client entry' log.
Proof.
  destruct entry as [ns e], entry' as [ns' e']. simpl. intros <- He.
  destruct (String.eqb_spec ns "cosmos") as [Hcosmos | Hother].
  - rewrite (He Hcosmos). reflexivity.
  - apply getAccounts_namespace_entry. assumption.
Qed.

(** X15.  [getAccounts] reads [chainIds] of the cosmos entry only: two
    ranges with the same namespaces in the same order and the same cosmos
    entry give the same outcome and the same requests. *)
Theorem getAccounts_reads_cosmos_chainIds authRange authRange' log :
  Forall2 (fun entry entry' =>
             fst entry = fst entry'
             /\ (fst entry = "cosmos" -> snd entry = snd entry'))
          authRange authRange' ->
  getAccounts client authRange log = getAccounts client authRange' log.
Proof.
  intros Hsame.
  assert (Hmap : forall log,
    map_async (getAccounts_namespace client) authRange log
    = map_async (getAccounts_namespace client) authRange' log).
  { induction Hsame as [| entry entry' authRange authRange' [Hns He] _ IH];
      intros log0; simpl; [reflexivity |].
    rewrite (getAccounts_namespace_same entry entry' log0 Hns He).
    destruct (getAccounts_namespace client entry' log0) as [p log1].
    rewrite IH. reflexivity. }
  rewrite !getAccounts_outcome, Hmap. reflexivity.
Qed.

(** X16.  [getAccounts] has no partial results: it is fulfilled exactly
    when every branch is, and a rejected branch rejects the whole call
    with the reason of a rejected branch, whatever the other branches
    fetched.  A namespace outside cosmos, ethereum, aptos and sui is such
    a branch. *)
Theorem getAccounts_all_or_nothing authRange log :
  let outcomes :=
    fst (map_async (getAccounts_namespace client) authRange log) in
  let outcome := getAccounts client authRange log in
  (isFulfilled (fst outcome) = true
   <-> Forall (fun p => isFulfilled p = true) outcomes)
  /\ (forall reason,
        In (Rejected reason) outcomes ->
        exists reason',
          fst outcome = Rejected reason' /\ In (Rejected reason') outcomes)
  /\ (forall namespace e,
        In (namespace, e) authRange ->
        switch namespace = case_default ->
        exists reason, fst outcome = Rejected reason).
Proof.
  cbv zeta.
  assert (Hrejects : forall reason,
    In (Rejected reason)
       (fst (map_async (getAccounts_namespace client) authRange log)) ->
    exists reason',
      fst (getAccounts client authRange log) = Rejected reason'
      /\ In (Rejected reason')
            (fst (map_async (getAccounts_namespace client) authRange log))).
  { intros reason Hin. rewrite getAccounts_outcome. simpl.
    destruct (Promise_all_rejects _ _ Hin) as [reason' Hall].
    rewrite Hall. exists reason'. split; [reflexivity |].
    apply Promise_all_Rejected. assumption. }
  split; [| split].
  - rewrite getAccounts_outcome. simpl. split.
    + destruct (Promise_all _) as [values |] eqn:Hall; [| discriminate].
      intros _. apply Promise_all_Fulfilled in Hall. rewrite Hall.
      apply List.Forall_forall. intros p Hp. apply in_map_iff in Hp.
      destruct Hp as (v & <- & _). reflexivity.
    + intros Hall. destruct (Promise_all_all_fulfilled _ Hall) as [values ->].
      reflexivity.
  - exact Hrejects.
  - intros namespace e Hin Hcase.
    destruct (Forall2_In_l _ _ _ _
                (map_async_outcomes (getAccounts_namespace client) authRange log)
                Hin) as (p & Hp & log1 & ->).
    unfold getAccounts_namespace in Hp. rewrite Hcase in Hp. simpl in Hp.
    destruct (Hrejects _ Hp) as (reason' & Hreason' & _). eauto.
Qed.
End AccountsMore.

(** ** connect reads the namespaces only *)

Lemma connect_namespace_same client entry entry' log :
  fst entry = fst entry' ->
  connect_namespace client entry log = connect_namespace client entry' log.
Proof.
  destruct entry as [ns e], entry' as [ns' e']. simpl. intros <-. reflexivity.
Qed.

(** X17.  [connect] never reads [chainIds]: two ranges with the same
    namespaces in the same order give the same outcome and the same
    requests. *)
Theorem connect_reads_namespaces client authRange authRange' log :
  map fst authRange = map fst authRange' ->
  connect client authRange log = connect client authRange' log.
Proof.
  intros Hsame.
  assert (Hmap : forall log,
    map_async (connect_namespace client) authRange log
    = map_async (connect_namespace client) authRange' log).
  { revert authRange' Hsame.
    induction authRange as [| entry authRange IH];
      intros [| entry' authRange'] Hsame log0; try discriminate;
      [reflexivity |].
    simpl in Hsame. injection Hsame as Hns Hrest. cbn [map_async].
    rewrite (connect_namespace_same client entry entry' log0 Hns).
    destruct (connect_namespace client entry' log0) as [p log1].
    rewrite (IH _ Hrest). reflexivity. }
  unfold connect, await, Promise_all_map. rewrite Hmap. reflexivity.
Qed.

(** [getAccounts] with the stub wallet over sui, ethereum and aptos. *)
Lemma getAccounts_flat_stub :
  let authRange :=
    [("sui", {| chainIds := None |}); ("ethereum", {| chainIds := None |});
     ("aptos", {| chainIds := None |})] in
  exists accounts,
    fst (getAccounts (H := stubImports) stubWallet authRange []) = Fulfilled accounts
    /\ map WalletAccount.namespace accounts
       = ["sui"; "sui"; "ethereum"; "ethereum"; "aptos"]
    /\ Forall (fun a => In (WalletAccount.namespace a) (map fst authRange))
              accounts.
Proof.
  cbv zeta. eexists.
  assert (Hfulfilled :
    fst (getAccounts (H := stubImports) stubWallet
           [("sui", {| chainIds := None |}); ("ethereum", {| chainIds := None |});
            ("aptos", {| chainIds := None |})] [])
    = Fulfilled _) by reflexivity.
  split; [exact Hfulfilled |]. split; [reflexivity |].
  exact (proj1 (proj2 (getAccounts_flat (H := stubImports) stubWallet _ _ _
                         Hfulfilled))).
Defined.

Lemma stubRange_NoDup :
  List.NoDup (map fst
    [("sui", {| chainIds := None |}); ("ethereum", {| chainIds := None |});
     ("aptos", {| chainIds := None |})]).
Proof. repeat constructor; simpl; intuition discriminate. Defined.

Lemma getAccounts_ethereum_stub :
  let authRange :=
    [("sui", {| chainIds := None |}); ("ethereum", {| chainIds := None |});
     ("aptos", {| chainIds := None |})] in
  exists accounts,
    List.NoDup (map fst authRange)
    /\ In ("ethereum", {| chainIds := None |}) authRange
    /\ fst (getAccounts (H := stubImports) stubWallet authRange [])
       = Fulfilled accounts
    /\ Forall (fun a =>
         EncodedString.encoding (WalletAccount.address a) = Some "hex"
         /\ WalletAccount.publicKey a = None
         /\ WalletAccount.chainId a = None
         /\ WalletAccount.username a = None
         /\ WalletAccount.algo a = None)
         (accountsOf "ethereum" accounts).
Proof.
  cbv zeta. eexists.
  assert (Hin : In ("ethereum", {| chainIds := None |})
            [("sui", {| chainIds := None |}); ("ethereum", {| chainIds := None |});
             ("aptos", {| chainIds := None |})])
    by (right; left; reflexivity).
  assert (Hfulfilled :
    fst (getAccounts (H := stubImports) stubWallet
           [("sui", {| chainIds := None |}); ("ethereum", {| chainIds := None |});
            ("aptos", {| chainIds := None |})] [])
    = Fulfilled _) by reflexivity.
  split; [exact stubRange_NoDup |]. split; [exact Hin |].
  split; [exact Hfulfilled |].
  destruct (getAccounts_ethereum (H := stubImports) stubWallet _ _ _ _
              stubRange_NoDup Hin Hfulfilled)
    as (log1 & ethAddrs & _ & _ & Hshape).
  exact Hshape.
Defined.

Lemma getAccounts_sui_stub :
  let authRange :=
    [("sui", {| chainIds := None |}); ("ethereum", {| chainIds := None |});
     ("aptos", {| chainIds := None |})] in
  exists accounts suiPublicKey,
    List.NoDup (map fst authRange)
    /\ In ("sui", {| chainIds := None |}) authRange
    /\ fst (getAccounts (H := stubImports) stubWallet authRange [])
       = Fulfilled accounts
    /\ Forall (fun a =>
         EncodedString.encoding (WalletAccount.address a) = Some "hex"
         /\ WalletAccount.publicKey a
            = Some {| EncodedString.value := suiPublicKey;
                      EncodedString.encoding := Some "hex" |})
         (accountsOf "sui" accounts).
Proof.
  cbv zeta.
  assert (Hin : In ("sui", {| chainIds := None |})
            [("sui", {| chainIds := None |}); ("ethereum", {| chainIds := None |});
             ("aptos", {| chainIds := None |})])
    by (left; reflexivity).
  pose (accounts :=
    match fst (getAccounts (H := stubImports) stubWallet
                 [("sui", {| chainIds := None |});
                  ("ethereum", {| chainIds := None |});
                  ("aptos", {| chainIds := None |})] []) with
    | Fulfilled accounts => accounts
    | Rejected _ => []
    end).
  assert (Hfulfilled :
    fst (getAccounts (H := stubImports) stubWallet
           [("sui", {| chainIds := None |}); ("ethereum", {| chainIds := None |});
            ("aptos", {| chainIds := None |})] [])
    = Fulfilled accounts) by reflexivity.
  destruct (getAccounts_sui (H := stubImports) stubWallet _ _ _ _
              stubRange_NoDup Hin Hfulfilled)
    as (log1 & suiAddrs & suiPublicKey & _ & _ & _ & Hshape).
  exists accounts, suiPublicKey.
  split; [exact stubRange_NoDup |]. split; [exact Hin |].
  split; [exact Hfulfilled | exact Hshape].
Defined.

Lemma getAccounts_aptos_stub :
  let authRange :=
    [("sui", {| chainIds := None |}); ("ethereum", {| chainIds := None |});
     ("aptos", {| chainIds := None |})] in
  exists accounts account,
    List.NoDup (map fst authRange)
    /\ In ("aptos", {| chainIds := None |}) authRange
    /\ fst (getAccounts (H := stubImports) stubWallet authRange [])
       = Fulfilled accounts
    /\ accountsOf "aptos" accounts = [account].
Proof.
  cbv zeta.
  assert (Hin : In ("aptos", {| chainIds := None |})
            [("sui", {| chainIds := None |}); ("ethereum", {| chainIds := None |});
             ("aptos", {| chainIds := None |})])
    by (right; right; left; reflexivity).
  pose (accounts :=
    match fst (getAccounts (H := stubImports) stubWallet
                 [("sui", {| chainIds := None |});
                  ("ethereum", {| chainIds := None |});
                  ("aptos", {| chainIds := None |})] []) with
    | Fulfilled accounts => accounts
    | Rejected _ => []
    end).
  assert (Hfulfilled :
    fst (getAccounts (H := stubImports) stubWallet
           [("sui", {| chainIds := None |}); ("ethereum", {| chainIds := None |});
            ("aptos", {| chainIds := None |})] [])
    = Fulfilled accounts) by reflexivity.
  destruct (getAccounts_aptos (H := stubImports) stubWallet _ _ _ _
              stubRange_NoDup Hin Hfulfilled)
    as (log1 & answer & account & _ & Hone & _).
  exists accounts, account.
  split; [exact stubRange_NoDup |]. split; [exact Hin |].
  split; [exact Hfulfilled | exact Hone].
Defined.

(** An ethereum entry with and without chain ids. *)
Lemma getAccounts_reads_cosmos_chainIds_stub :
  let authRange := [("ethereum", {| chainIds := None |})] in
  let authRange' := [("ethereum", {| chainIds := Some ["1"; "137"] |})] in
  Forall2 (fun entry entry' =>
             fst entry = fst entry'
             /\ (fst entry = "cosmos" -> snd entry = snd entry'))
          authRange authRange'
  /\ getAccounts (H := stubImports) stubWallet authRange []
     = getAccounts (H := stubImports) stubWallet authRange' [].
Proof.
  cbv zeta.
  assert (Hsame : Forall2 (fun entry entry' : Namespace * AuthEntry =>
                     fst entry = fst entry'
                     /\ (fst entry = "cosmos" -> snd entry = snd entry'))
            [("ethereum", {| chainIds := None |})]
            [("ethereum", {| chainIds := Some ["1"; "137"] |})]).
  { repeat constructor. simpl. discriminate. }
  split; [exact Hsame |].
  exact (getAccounts_reads_cosmos_chainIds (H := stubImports) stubWallet _ _ []
           Hsame).
Defined.

(** An aptos entry with and without chain ids. *)
Lemma connect_reads_namespaces_stub :
  let authRange := [("aptos", {| chainIds := None |})] in
  let authRange' := [("aptos", {| chainIds := Some ["1"] |})] in
  map fst authRange = map fst authRange'
  /\ connect stubWallet authRange [] = connect stubWallet authRange' [].
Proof.
  cbv zeta. split; [reflexivity |].
  exact (connect_reads_namespaces stubWallet
           [("aptos", {| chainIds := None |})]
           [("aptos", {| chainIds := Some ["1"] |})] [] eq_refl).
Defined.

(** ** The other methods *)

Lemma map_async'_log {A B} (f : A -> Async' B) (added : A -> OtherLog) :
  (forall x log, snd (f x log) = log ++ added x) ->
  forall array log,
    snd (map_async' f array log) = log ++ flat_map added array.
Proof.
  intros Hf array.
  induction array as [| x rest IH]; intros log; simpl.
  - rewrite app_nil_r. reflexivity.
  - specialize (Hf x log). destruct (f x log) as [p log1]. simpl in Hf.
    specialize (IH log1). destruct (map_async' f rest log1) as [ps log2].
    simpl in *. subst. rewrite app_assoc. reflexivity.
Qed.

Lemma map_async'_outcomes {A B} (f : A -> Async' B) array : forall log,
  Forall2 (fun x p => exists log1, p = fst (f x log1))
          array (fst (map_async' f array log)).
Proof.
  induction array as [| x rest IH]; intros log; simpl.
  - constructor.
  - destruct (f x log) as [p log1] eqn:Hx.
    specialize (IH log1). destruct (map_async' f rest log1) as [ps log2].
    simpl in *. constructor; [| assumption].
    exists log. rewrite Hx. reflexivity.
Qed.

(** [connect] is fulfilled only over aptos and sui. *)
Lemma connect_Fulfilled_namespaces client authRange log :
  fst (connect client authRange log) = Fulfilled tt ->
  Forall (fun entry => fst entry = "aptos" \/ fst entry = "sui") authRange.
Proof.
  rewrite connect_outcome.
  destruct (Promise_all _) as [values |] eqn:Hall; [| discriminate].
  intros _. apply Promise_all_Fulfilled in Hall.
  apply List.Forall_forall. intros [namespace e] Hin. simpl.
  destruct (Forall2_In_l _ _ _ _
              (map_async_outcomes (connect_namespace client) authRange log)
              Hin) as (p & Hp & log1 & ->).
  rewrite Hall in Hp. apply in_map_iff in Hp. destruct Hp as (v & Hv & _).
  destruct (String.eqb_spec namespace "aptos") as [| Haptos]; [tauto |].
  destruct (String.eqb_spec namespace "sui") as [| Hsui]; [tauto |].
  rewrite connect_namespace_unmatched in Hv by assumption. discriminate.
Qed.

Section OtherProperties.
Context (client : Extension).

Lemma disconnect_namespace_log entry log :
  snd (disconnect_namespace client entry log)
    = log ++ (if String.eqb (fst entry) "cosmos"
              then [call_other Cosmos cos_disconnect] else []).
Proof.
  destruct entry as [namespace e]. unfold disconnect_namespace. simpl.
  destruct (String.eqb_spec namespace "cosmos") as [-> | Hns].
  - change (switch "cosmos") with case_cosmos. cbv iota.
    unfold await', client_request', resolve'.
    destruct (other_request client log Cosmos cos_disconnect); reflexivity.
  - rewrite app_nil_r.
    destruct (switch namespace) eqn:Hcase; try reflexivity.
    apply switch_cosmos_iff in Hcase. contradiction.
Qed.

Lemma disconnect_namespace_unmatched namespace e log :
  namespace <> "cosmos" ->
  disconnect_namespace client (namespace, e) log
    = (Rejected Unmatched_namespace, log).
Proof.
  intros Hns. unfold disconnect_namespace.
  destruct (switch namespace) eqn:Hcase; try reflexivity.
  apply switch_cosmos_iff in Hcase. contradiction.
Qed.

Lemma disconnect_outcome authRange log :
  disconnect client authRange log
    = (match Promise_all
               (fst (map_async' (disconnect_namespace client) authRange log)) with
       | Fulfilled _ => Fulfilled tt
       | Rejected reason => Rejected reason
       end,
       snd (map_async' (disconnect_namespace client) authRange log)).
Proof.
  unfold disconnect, await', Promise_all_map', resolve'.
  destruct (map_async' _ authRange log) as [ps log']. simpl.
  destruct (Promise_all ps); reflexivity.
Qed.

Lemma disconnect_Fulfilled_namespaces authRange log :
  fst (disconnect client authRange log) = Fulfilled tt ->
  Forall (fun entry => fst entry = "cosmos") authRange.
Proof.
  rewrite disconnect_outcome. simpl.
  destruct (Promise_all _) as [values |] eqn:Hall; [| discriminate].
  intros _. apply Promise_all_Fulfilled in Hall.
  apply List.Forall_forall. intros [namespace e] Hin. simpl.
  destruct (Forall2_In_l _ _ _ _
              (map_async'_outcomes (disconnect_namespace client) authRange log)
              Hin) as (p & Hp & log1 & ->).
  rewrite Hall in Hp. apply in_map_iff in Hp. destruct Hp as (v & Hv & _).
  destruct (String.eqb_spec namespace "cosmos") as [| Hns]; [assumption |].
  rewrite disconnect_namespace_unmatched in Hv by assumption. discriminate.
Qed.

(** X18.  [disconnect(authRange)] issues one [cos_disconnect] for the
    cosmos entry and nothing else.  Any other namespace, ethereum, aptos
    and sui included, makes it reject; when the wallet answers every
    request, the reason is 'Unmatched namespace.'.  It is fulfilled only
    for a range that holds nothing but cosmos. *)
Theorem disconnect_cosmos_only authRange log :
  let outcome := disconnect client authRange log in
  snd outcome
    = log ++ flat_map (fun entry =>
                         if String.eqb (fst entry) "cosmos"
                         then [call_other Cosmos cos_disconnect] else [])
                      authRange
  /\ (forall namespace e,
        In (namespace, e) authRange -> namespace <> "cosmos" ->
        exists reason, fst outcome = Rejected reason)
  /\ ((forall log' provider payload,
         isFulfilled (other_request client log' provider payload) = true) ->
      forall reason, fst outcome = Rejected reason ->
                     reason = Unmatched_namespace)
  /\ (fst outcome = Fulfilled tt ->
      Forall (fun entry => fst entry = "cosmos") authRange).
Proof.
  cbv zeta. split; [| split; [| split]].
  - rewrite disconnect_outcome. simpl.
    apply (map_async'_log (disconnect_namespace client) _
             disconnect_namespace_log).
  - intros namespace e Hin Hns. rewrite disconnect_outcome. simpl.
    destruct (Forall2_In_l _ _ _ _
                (map_async'_outcomes (disconnect_namespace client) authRange log)
                Hin) as (p & Hp & log1 & ->).
    rewrite disconnect_namespace_unmatched in Hp by assumption.
    destruct (Promise_all_rejects _ _ Hp) as [reason ->]. eauto.
  - intros Hanswers reason. rewrite disconnect_outcome. simpl.
    destruct (Promise_all _) as [values | reason'] eqn:Hall; [discriminate |].
    intros [= ->]. apply Promise_all_Rejected in Hall.
    destruct (Forall2_In_r _ _ _ _
                (map_async'_outcomes (disconnect_namespace client) authRange log)
                Hall) as ([namespace e] & _ & log1 & Hentry).
    revert Hentry. unfold disconnect_namespace.
    destruct (switch namespace); simpl; try congruence.
    unfold await', client_request', resolve'.
    specialize (Hanswers log1 Cosmos cos_disconnect).
    destruct (other_request client log1 Cosmos cos_disconnect);
      simpl; discriminate.
  - apply disconnect_Fulfilled_namespaces.
Qed.

(** X19.  What [connect] grants, [disconnect] cannot revoke: [connect]
    is bound for aptos and sui, [disconnect] for cosmos, so for no range
    but the empty one are both fulfilled. *)
Theorem connect_disconnect_disjoint wallet authRange log log' :
  authRange <> [] ->
  fst (connect wallet authRange log) = Fulfilled tt ->
  fst (disconnect client authRange log') <> Fulfilled tt.
Proof.
  intros Hrange Hconnect Hdisconnect.
  apply connect_Fulfilled_namespaces in Hconnect.
  apply disconnect_Fulfilled_namespaces in Hdisconnect.
  destruct authRange as [| [namespace e] rest]; [contradiction |].
  inversion Hconnect as [| ? ? Hbound _]; subst.
  inversion Hdisconnect as [| ? ? Hcosmos _]; subst.
  simpl in *. subst namespace. destruct Hbound; discriminate.
Qed.

(** X20.  [addChain] does not await its request: for cosmos and ethereum
    it issues the request with [chainInfo] as given and is fulfilled,
    whatever the wallet answers; for any other namespace it rejects with
    'Unmatched namespace.' and issues nothing. *)
Theorem addChain_not_awaited namespace chainInfo log :
  (namespace = "cosmos" ->
   addChain client namespace chainInfo log
     = (Fulfilled tt, log ++ [call_other Cosmos (cos_addChain chainInfo)]))
  /\ (namespace = "ethereum" ->
      addChain client namespace chainInfo log
        = (Fulfilled tt,
           log ++ [call_other Ethereum (wallet_addEthereumChain chainInfo)]))
  /\ (namespace <> "cosmos" -> namespace <> "ethereum" ->
      addChain client namespace chainInfo log
        = (Rejected Unmatched_namespace, log))
  /\ forall client',
       addChain client namespace chainInfo log
         = addChain client' namespace chainInfo log.
Proof.
  unfold addChain. split; [| split; [| split]].
  - intros ->. reflexivity.
  - intros ->. reflexivity.
  - intros Hcosmos Hethereum.
    destruct (switch namespace) eqn:Hcase; try reflexivity.
    + apply switch_cosmos_iff in Hcase. contradiction.
    + apply switch_ethereum_iff in Hcase. contradiction.
  - intros client'. destruct (switch namespace); reflexivity.
Qed.

(** X21.  [switchChain] hands back a promise only to reject: for
    ethereum it issues [wallet_switchEthereumChain] with the chain id and
    returns [undefined] without waiting for the wallet; for any other
    namespace, cosmos included, it returns a promise rejected with
    'Unmatched namespace.' and issues nothing. *)
Theorem switchChain_ethereum_only namespace chainId log :
  (namespace = "ethereum" ->
   switchChain client namespace chainId log
     = (returned_undefined,
        log ++ [call_other Ethereum (wallet_switchEthereumChain chainId)]))
  /\ (namespace <> "ethereum" ->
      switchChain client namespace chainId log
        = (returned_promise (Rejected Unmatched_namespace), log))
  /\ (forall result,
        fst (switchChain client namespace chainId log)
          <> returned_promise (Fulfilled result))
  /\ forall client',
       switchChain client namespace chainId log
         = switchChain client' namespace chainId log.
Proof.
  unfold switchChain. split; [| split; [| split]].
  - intros ->. reflexivity.
  - intros Hns. destruct (switch namespace) eqn:Hcase; try reflexivity.
    apply switch_ethereum_iff in Hcase. contradiction.
  - intros result. destruct (switch namespace); discriminate.
  - intros client'. destruct (switch namespace); reflexivity.
Qed.

(** X22.  [signAndBroadcast] is bound for sui only: any other namespace
    rejects with 'Unmatched namespace.' and issues nothing.  For sui it
    issues one [sui_signAndExecuteTransaction] with the document as
    given, passes a failure of the wallet on, and from an answer whose
    [effects] is an object returns the [transactionDigest] found there
    as the hash.  Signer, chain id and options play no part. *)
Theorem signAndBroadcast_sui namespace doc signerAddress chainId options log :
  let outcome :=
    signAndBroadcast client namespace doc signerAddress chainId options log in
  let payload := sui_signAndExecuteTransaction doc in
  (namespace <> "sui" -> outcome = (Rejected Unmatched_namespace, log))
  /\ (namespace = "sui" ->
      snd outcome = log ++ [call_other Sui payload]
      /\ (forall reason,
            other_request client log Sui payload = Rejected reason ->
            fst outcome = Rejected reason)
      /\ (forall fields effects,
            other_request client log Sui payload
              = Fulfilled (JsObject fields) ->
            lookupProperty "effects" fields = JsObject effects ->
            fst outcome
              = Fulfilled {| Block.hash_value :=
                               lookupProperty "transactionDigest" effects |}))
  /\ outcome = signAndBroadcast client namespace doc None None JsUndefined log.
Proof.
  cbv zeta. unfold signAndBroadcast. split; [| split; [| reflexivity]].
  - intros Hns. destruct (switch namespace) eqn:Hcase; try reflexivity.
    apply switch_sui_iff in Hcase. contradiction.
  - intros ->. change (switch "sui") with case_sui. cbv iota.
    unfold await', client_request', settled', resolve'.
    split; [| split].
    + destruct (other_request client log Sui _) as [resp |]; [| reflexivity].
      simpl. destruct (getProperty resp "effects") as [effects |];
        [| reflexivity].
      destruct (getProperty effects "transactionDigest"); reflexivity.
    + intros reason ->. reflexivity.
    + intros fields effects -> Heffects. simpl. rewrite Heffects. reflexivity.
Qed.

(** X23.  The receipt can be lost: when the wallet answers the sui
    request with a value that has no [effects] ([undefined], [null], or
    an object without the property), [signAndBroadcast] rejects with a
    [TypeError], after the request was issued. *)
Theorem signAndBroadcast_without_effects doc signerAddress chainId options log resp :
  other_request client log Sui (sui_signAndExecuteTransaction doc)
    = Fulfilled resp ->
  resp = JsUndefined \/ resp = JsNull
  \/ (exists fields,
        resp = JsObject fields
        /\ lookupProperty "effects" fields = JsUndefined) ->
  signAndBroadcast client "sui" doc signerAddress chainId options log
    = (Rejected TypeError_undefined,
       log ++ [call_other Sui (sui_signAndExecuteTransaction doc)]).
Proof.
  intros Hanswer Hresp. unfold signAndBroadcast.
  change (switch "sui") with case_sui. cbv iota.
  unfold await', client_request', settled', resolve'. rewrite Hanswer.
  destruct Hresp as [-> | [-> | (fields & -> & Heffects)]]; simpl;
    try reflexivity.
  rewrite Heffects. reflexivity.
Qed.

(** X24.  [getOfflineSigner] asks keplr for the direct signer only when
    [preferredSignType] is 'direct'; absent, 'amino' or anything else, it
    asks for the amino-only signer.  Either way it makes one call to
    keplr, for the same chain id. *)
Theorem getOfflineSigner_direct_only chainId preferredSignType log :
  (preferredSignType = Some "direct" ->
   getOfflineSigner client chainId preferredSignType log
     = (keplr_signer client log (Keplr.getOfflineSigner chainId),
        log ++ [call_keplr (Keplr.getOfflineSigner chainId)]))
  /\ (preferredSignType <> Some "direct" ->
      getOfflineSigner client chainId preferredSignType log
        = (keplr_signer client log (Keplr.getOfflineSignerOnlyAmino chainId),
           log ++ [call_keplr (Keplr.getOfflineSignerOnlyAmino chainId)])).
Proof.
  unfold getOfflineSigner. split.
  - intros ->. reflexivity.
  - intros Hother. destruct preferredSignType as [signType |]; [| reflexivity].
    destruct (String.eqb signType "amino"); [reflexivity |].
    destruct (String.eqb_spec signType "direct") as [-> | _];
      [contradiction | reflexivity].
Qed.
End OtherProperties.

(** ** utils/verify.ts *)

Lemma findIndex_from_none {A} (predicate : A -> bool) array : forall i,
  (0 <= i)%Z ->
  findIndex_from predicate array i = (-1)%Z
  <-> Forall (fun x => predicate x = false) array.
Proof.
  induction array as [| x rest IH]; intros i Hi; simpl.
  - split; [constructor | reflexivity].
  - destruct (predicate x) eqn:Hx.
    + split; [lia |]. intros Hall. inversion Hall; congruence.
    + rewrite IH by lia. split.
      * intros Hrest. constructor; assumption.
      * intros Hall. inversion Hall; assumption.
Qed.

(** X25.  [isCosmosChain(chainName)] is true exactly when some entry of
    the chain registry has that [chain_name]. *)
Theorem isCosmosChain_iff `{Registry} chainName :
  isCosmosChain chainName = true
  <-> exists chain, In chain chains /\ chain_name chain = chainName.
Proof.
  unfold isCosmosChain, findIndex.
  pose proof (findIndex_from_none
                (fun chain => String.eqb (chain_name chain) chainName)
                chains 0%Z (Z.le_refl 0)) as Hnone.
  destruct (Z.eqb_spec
              (findIndex_from
                 (fun chain => String.eqb (chain_name chain) chainName)
                 chains 0) (-1)) as [Heq | Hne].
  - split; [discriminate |]. intros (chain & Hin & Hname).
    apply Hnone in Heq.
    pose proof (proj1 (List.Forall_forall _ _) Heq chain Hin) as Hchain.
    simpl in Hchain. rewrite Hname, String.eqb_refl in Hchain. discriminate.
  - split; [| reflexivity]. intros _.
    destruct (List.Exists_dec
                (fun chain => String.eqb (chain_name chain) chainName = true)
                chains) as [Hex | Hnex].
    + intros chain. destruct (String.eqb (chain_name chain) chainName);
        [left; reflexivity | right; discriminate].
    + apply List.Exists_exists in Hex. destruct Hex as (chain & Hin & Hname).
      exists chain. split; [assumption |]. apply String.eqb_eq. assumption.
    + exfalso. apply Hne. apply Hnone. apply List.Forall_forall.
      intros chain Hin.
      destruct (String.eqb (chain_name chain) chainName) eqn:Hname;
        [| reflexivity].
      exfalso. apply Hnex. apply List.Exists_exists. eauto.
Qed.

(** With the stub wallet and extension: aptos is connected, and cannot be
    disconnected. *)
Lemma connect_disconnect_disjoint_stub :
  let authRange := [("aptos", {| chainIds := None |})] in
  authRange <> []
  /\ fst (connect stubWallet authRange []) = Fulfilled tt
  /\ fst (disconnect stubExtension authRange []) <> Fulfilled tt.
Proof.
  cbv zeta.
  assert (Hrange : [("aptos", {| chainIds := None |})] <> []) by discriminate.
  assert (Hconnect :
    fst (connect stubWallet [("aptos", {| chainIds := None |})] [])
    = Fulfilled tt) by reflexivity.
  split; [exact Hrange |]. split; [exact Hconnect |].
  exact (connect_disconnect_disjoint stubExtension stubWallet _ [] []
           Hrange Hconnect).
Defined.

(** With an extension that answers [null]: the transaction is sent and
    the call rejects. *)
Lemma signAndBroadcast_without_effects_stub :
  let doc := JsObject [("kind", JsString "moveCall")] in
  other_request nullExtension [] Sui (sui_signAndExecuteTransaction doc)
    = Fulfilled JsNull
  /\ signAndBroadcast nullExtension "sui" doc None None JsUndefined []
     = (Rejected TypeError_undefined,
        [call_other Sui (sui_signAndExecuteTransaction doc)]).
Proof.
  cbv zeta. split; [reflexivity |].
  exact (signAndBroadcast_without_effects nullExtension
           (JsObject [("kind", JsString "moveCall")]) None None JsUndefined []
           JsNull eq_refl (or_intror (or_introl eq_refl))).
Defined.

(** With the stub extension and registry. *)
Lemma signAndBroadcast_stub :
  signAndBroadcast stubExtension "sui" (JsObject []) None None JsUndefined []
    = (Fulfilled {| Block.hash_value := JsString "9fGh" |},
       [call_other Sui (sui_signAndExecuteTransaction (JsObject []))]).
Proof. reflexivity. Qed.

Lemma isCosmosChain_stub :
  isCosmosChain (H := stubRegistry) "osmosis" = true
  /\ isCosmosChain (H := stubRegistry) "osmosis-1" = false.
Proof. split; reflexivity. Qed.

(** ** The two sui requests of getAccounts *)

Section SuiRequests.
Context `{Imports} (client : Cosmostation).

Lemma getAccounts_namespace_no_sui entry log :
  fst entry <> "sui" ->
  requestsTo Sui (snd (getAccounts_namespace client entry log))
    = requestsTo Sui log.
Proof.
  destruct entry as [namespace [ids]]. simpl. intros Hns.
  unfold getAccounts_namespace.
  destruct (switch namespace) eqn:Hcase.
  - destruct ids as [ids |]; simpl; [| reflexivity].
    unfold Promise_all_map.
    pose proof (map_async_log (getAccounts_chainId client namespace)
                  (fun chainId =>
                     [call_request Cosmos (cos_requestAccount chainId)])
                  (getAccounts_chainId_log client namespace) ids log) as Hlog.
    destruct (map_async _ ids log) as [ps log']. simpl in *. subst log'.
    rewrite requestsTo_app.
    replace (requestsTo Sui (flat_map _ ids)) with (@nil Call);
      [apply app_nil_r |].
    clear. induction ids as [| chainId ids IH]; simpl; [reflexivity | exact IH].
  - unfold await, client_request, resolve.
    destruct (request client log Ethereum eth_requestAccounts);
      simpl; rewrite requestsTo_app; simpl; apply app_nil_r.
  - unfold await, client_request, resolve.
    destruct (request client log Aptos aptos_account);
      simpl; rewrite requestsTo_app; simpl; apply app_nil_r.
  - apply switch_sui_iff in Hcase. contradiction.
  - reflexivity.
Qed.

Lemma getAccounts_namespace_sui e log :
  requestsTo Sui (snd (getAccounts_namespace client ("sui", e) log))
    = requestsTo Sui log
      ++ call_request Sui sui_getAccounts
         :: (if isFulfilled (request client log Sui sui_getAccounts)
             then [call_request Sui sui_getPublicKey] else []).
Proof.
  unfold getAccounts_namespace. change (switch "sui") with case_sui. cbv iota.
  unfold await, client_request, resolve.
  destruct (request client log Sui sui_getAccounts); simpl.
  - destruct (request client _ Sui sui_getPublicKey); simpl;
      rewrite !requestsTo_app; simpl; rewrite <- app_assoc; reflexivity.
  - rewrite requestsTo_app. reflexivity.
Qed.

Lemma map_async_no_sui authRange : forall log,
  ~ In "sui" (map fst authRange) ->
  requestsTo Sui (snd (map_async (getAccounts_namespace client) authRange log))
    = requestsTo Sui log.
Proof.
  induction authRange as [| entry rest IH]; intros log Hfresh;
    [reflexivity |].
  simpl in Hfresh. cbn [map_async].
  pose proof (getAccounts_namespace_no_sui entry log) as Hentry.
  destruct (getAccounts_namespace client entry log) as [p log1].
  specialize (IH log1).
  destruct (map_async (getAccounts_namespace client) rest log1) as [ps log2].
  cbn [snd] in *. rewrite IH, Hentry by tauto. reflexivity.
Qed.

(** X26.  For the sui entry [getAccounts] asks the sui provider for the
    accounts once, and for the public key once and only if the accounts
    request was fulfilled; no other branch sends the sui provider
    anything. *)
Theorem getAccounts_sui_requests authRange e log :
  List.NoDup (map fst authRange) ->
  In ("sui", e) authRange ->
  exists log1,
    requestsTo Sui log1 = requestsTo Sui log
    /\ requestsTo Sui (snd (getAccounts client authRange log))
       = requestsTo Sui log
         ++ call_request Sui sui_getAccounts
            :: (if isFulfilled (request client log1 Sui sui_getAccounts)
                then [call_request Sui sui_getPublicKey] else []).
Proof.
  rewrite getAccounts_outcome. cbn [snd]. revert log.
  induction authRange as [| [namespace e'] rest IH]; intros log Hnodup Hin;
    [destruct Hin |].
  simpl in Hnodup, Hin. cbn [map_async].
  inversion Hnodup as [| ? ? Hfresh Hnodup']; subst.
  destruct Hin as [[= -> ->] | Hin].
  - exists log. split; [reflexivity |].
    pose proof (getAccounts_namespace_sui e log) as Hentry.
    destruct (getAccounts_namespace client ("sui", e) log) as [p log1].
    pose proof (map_async_no_sui rest log1 Hfresh) as Hrest.
    destruct (map_async (getAccounts_namespace client) rest log1) as [ps log2].
    cbn [snd] in *. rewrite Hrest. exact Hentry.
  - assert (Hns : namespace <> "sui").
    { intros ->. apply Hfresh. apply (in_map fst _ _ Hin). }
    pose proof (getAccounts_namespace_no_sui (namespace, e') log Hns) as Hentry.
    destruct (getAccounts_namespace client (namespace, e') log) as [p log1].
    destruct (IH log1 Hnodup' Hin) as (log2 & Hsame & Hrequests).
    destruct (map_async (getAccounts_namespace client) rest log1) as [ps log3].
    cbn [snd] in *. exists log2. split.
    + rewrite Hsame, Hentry. reflexivity.
    + rewrite Hrequests, Hentry. reflexivity.
Qed.
End SuiRequests.

(** With a wallet that refuses: the public key is never asked for. *)
Lemma getAccounts_sui_requests_refused :
  let authRange :=
    [("ethereum", {| chainIds := None |}); ("sui", {| chainIds := None |})] in
  List.NoDup (map fst authRange)
  /\ In ("sui", {| chainIds := None |}) authRange
  /\ requestsTo Sui
       (snd (getAccounts (H := stubImports) refusingWallet authRange []))
     = [call_request Sui sui_getAccounts].
Proof.
  cbv zeta.
  assert (Hnodup : List.NoDup (map fst
            [("ethereum", {| chainIds := None |});
             ("sui", {| chainIds := None |})])).
  { repeat constructor; simpl; intuition discriminate. }
  assert (Hin : In ("sui", {| chainIds := None |})
            [("ethereum", {| chainIds := None |});
             ("sui", {| chainIds := None |})])
    by (right; left; reflexivity).
  split; [exact Hnodup |]. split; [exact Hin |].
  destruct (getAccounts_sui_requests (H := stubImports) refusingWallet _ _ []
              Hnodup Hin)
    as (log1 & _ & Hrequests).
  exact Hrequests.
Defined.

(** ** connect and the wallet's answers *)

(** A wallet that grants aptos and refuses sui. *)
Lemma connect_one_refusal :
  let wallet := {|
    request := fun R log provider payload =>
      match provider with
      | Sui => Rejected (JsString "User rejected request")
      | _ => request stubWallet log provider payload
      end;
    cosmos_on := cosmos_on stubWallet |} in
  let authRange :=
    [("aptos", {| chainIds := None |}); ("sui", {| chainIds := None |})] in
  fst (map_async (connect_namespace wallet) authRange [])
    = [Fulfilled tt; Rejected (JsString "User rejected request")]
  /\ connect wallet authRange []
     = (Rejected (JsString "User rejected request"),
        [call_request Aptos aptos_connect; call_request Sui sui_connect])
  /\ connect stubWallet authRange []
     = (Fulfilled tt,
        [call_request Aptos aptos_connect; call_request Sui sui_connect])
  /\ connect refusingWallet authRange []
     = (Rejected (JsString "User rejected request"),
        [call_request Aptos aptos_connect; call_request Sui sui_connect]).
Proof. repeat split. Qed.
